(** * moler: the [ls] command parser, the regex helper and the thread-pool runner

    A shallow embedding of
    - [moler/cmd/__init__.py]   (class [RegexHelper]),
    - [moler/cmd/unix/ls.py]    (class [Ls]),
    - [moler/runner.py]         (class [ThreadPoolExecutorRunner]),
    together with the properties the specification states about them.

    Conventions.  Python objects that are mutated in place are records that
    are threaded through a state-and-exception monad; a raised exception keeps
    the state reached so far, as the mutation of a Python object survives the
    raise.  Python [dict]s are [gmap]s.  Text is [string]; the character
    classes of [re] are given on the 7-bit range, with the Python 3 notion of
    white space. *)

From Stdlib Require Import ZArith QArith Qround Ascii String List Lia.
From stdpp Require Import base option gmap strings list fin_maps.

Set Default Proof Using "Type".
Open Scope string_scope.
Open Scope Z_scope.

(* ===================================================================== *)
(** * Exceptions and the state-and-exception monad                        *)
(* ===================================================================== *)

(** The exceptions that the modelled code raises, by class. *)
Inductive exn : Type :=
| ParsingDone              (* moler.exceptions.ParsingDone *)
| ResultNotAvailableYet    (* moler.exceptions.ResultNotAvailableYet *)
| KeyError
| IndexError
| TypeError
| AttributeError
| ValueError
| ObservationTimeout.      (* the failure that [on_timeout()] stores *)

Definition exn_eqb (e1 e2 : exn) : bool :=
  match e1, e2 with
  | ParsingDone, ParsingDone | ResultNotAvailableYet, ResultNotAvailableYet
  | KeyError, KeyError | IndexError, IndexError | TypeError, TypeError
  | AttributeError, AttributeError | ValueError, ValueError
  | ObservationTimeout, ObservationTimeout => true
  | _, _ => false
  end.

Inductive outcome (S A : Type) : Type :=
| Ok (a : A) (s : S)
| Raise (e : exn) (s : S).
Arguments Ok {S A} a s.
Arguments Raise {S A} e s.

Definition M (S A : Type) : Type := S -> outcome S A.

Definition ret {S A} (a : A) : M S A := fun s => Ok a s.
Definition raise {S A} (e : exn) : M S A := fun s => Raise e s.
Definition bind {S A B} (m : M S A) (f : A -> M S B) : M S B :=
  fun s => match m s with
           | Ok a s' => f a s'
           | Raise e s' => Raise e s'
           end.
Definition gets {S A} (f : S -> A) : M S A := fun s => Ok (f s) s.
Definition modify {S} (f : S -> S) : M S unit := fun s => Ok tt (f s).

(** [try: m except e => h]: Python's [try]/[except] for one exception class. *)
Definition try_except {S A} (m : M S A) (e : exn) (h : M S A) : M S A :=
  fun s => match m s with
           | Ok a s' => Ok a s'
           | Raise e' s' => if exn_eqb e' e then h s' else Raise e' s'
           end.

(** Running a computation on a component of the state. *)
Definition zoom {S T A} (proj : S -> T) (upd : T -> S -> S) (m : M T A) : M S A :=
  fun s => match m (proj s) with
           | Ok a t => Ok a (upd t s)
           | Raise e t => Raise e (upd t s)
           end.

#[global] Instance M_ret {S} : MRet (M S) := fun A a => ret a.
#[global] Instance M_bind {S} : MBind (M S) := fun A B f m => bind m f.
#[global] Instance M_fmap {S} : FMap (M S) :=
  fun A B f m => bind m (fun a => ret (f a)).

(** A [for] loop over a list that threads an accumulator. *)
Fixpoint foldM {S A B} (f : B -> A -> M S B) (b : B) (l : list A) : M S B :=
  match l with
  | [] => ret b
  | a :: l' => bind (f b a) (fun b' => foldM f b' l')
  end.

(** A [for] loop over a list, for its effects. *)
Fixpoint forM_ {S A} (f : A -> M S unit) (l : list A) : M S unit :=
  match l with
  | [] => ret tt
  | a :: l' => bind (f a) (fun _ => forM_ f l')
  end.

(** A computation that does not return: every run of it raises. *)
Definition never_ok {S A} (m : M S A) : Prop := forall s, exists e s', m s = Raise e s'.

(** [hoare I P m Q]: run from a state in [P], the computation [m] returns a
    value and a state in [Q], or raises leaving a state in [I]. *)
Definition hoare {S A} (I P : S -> Prop) (m : M S A) (Q : A -> S -> Prop) : Prop :=
  forall s, P s -> match m s with
                   | Ok a s' => Q a s'
                   | Raise _ s' => I s'
                   end.

(** [keeps I m]: the computation [m] maintains [I], whether it returns or
    raises. *)
Definition keeps {S A} (I : S -> Prop) (m : M S A) : Prop :=
  hoare I I m (fun _ => I).

(* ===================================================================== *)
(** * Text                                                                *)
(* ===================================================================== *)

Definition chars (s : string) : list ascii := list_ascii_of_string s.
Definition text (l : list ascii) : string := string_of_list_ascii l.

Definition code (a : ascii) : nat := nat_of_ascii a.

(** [\s] of [re] and the separators of [str.split()], Python 3:
    TAB LF VT FF CR, FS GS RS US, and the space. *)
Definition is_space (a : ascii) : bool :=
  let n := code a in
  ((9 <=? n) && (n <=? 13) || (28 <=? n) && (n <=? 32))%nat.

(** [\d] *)
Definition is_digit (a : ascii) : bool :=
  let n := code a in ((48 <=? n) && (n <=? 57))%nat.

Definition is_upper (a : ascii) : bool :=
  let n := code a in ((65 <=? n) && (n <=? 90))%nat.

Definition is_lower (a : ascii) : bool :=
  let n := code a in ((97 <=? n) && (n <=? 122))%nat.

(** [\w] *)
Definition is_word (a : ascii) : bool :=
  is_digit a || is_upper a || is_lower a || (code a =? 95)%nat.

Definition not_space (a : ascii) : bool := negb (is_space a).

(** [.] without DOTALL *)
Definition not_newline (a : ascii) : bool := negb (code a =? 10)%nat.

(** [[\w-]] *)
Definition is_word_or_dash (a : ascii) : bool := is_word a || (code a =? 45)%nat.

(** [str.lower()] *)
Definition lower_char (a : ascii) : ascii :=
  if is_upper a then ascii_of_nat (code a + 32) else a.
Definition lower (s : string) : string := text (map lower_char (chars s)).

(** [str.split()] with no argument: the maximal runs of non-space
    characters. *)
Fixpoint split_acc (cur : list ascii) (l : list ascii) : list string :=
  match l with
  | [] => match cur with [] => [] | _ => [text (rev cur)] end
  | a :: l' =>
      if is_space a
      then match cur with
           | [] => split_acc [] l'
           | _ => text (rev cur) :: split_acc [] l'
           end
      else split_acc (a :: cur) l'
  end.
Definition str_split (s : string) : list string := split_acc [] (chars s).

(** [k in s] for strings. *)
Fixpoint is_prefix (p s : list ascii) : bool :=
  match p, s with
  | [], _ => true
  | a :: p', b :: s' => bool_decide (a = b) && is_prefix p' s'
  | _ :: _, [] => false
  end.
Fixpoint is_infix (p s : list ascii) : bool :=
  is_prefix p s || match s with [] => false | _ :: s' => is_infix p s' end.
Definition is_substring (k s : string) : bool := is_infix (chars k) (chars s).

(** [int(s)] on a string of decimal digits. *)
Definition digit_val (a : ascii) : Z := Z.of_nat (code a) - 48.
Definition digits_val (l : list ascii) : Z :=
  fold_left (fun acc a => 10 * acc + digit_val a) l 0.
Definition int_of_str (s : string) : option Z :=
  match chars s with
  | [] => None
  | l => if forallb is_digit l then Some (digits_val l) else None
  end.

(* ===================================================================== *)
(** * Regular expressions: the fragment of [re] that the sources use      *)
(* ===================================================================== *)

Inductive regex : Type :=
| Eps
| Cls (p : ascii -> bool)        (* one character of a class *)
| Cat (r1 r2 : regex)
| Star (r : regex)               (* greedy [r*] *)
| Grp (n : nat) (r : regex)      (* capturing group number [n] *)
| Eos.                           (* [$] *)

Definition Chr (c : ascii) : regex := Cls (fun a => bool_decide (a = c)).
Definition Lit (s : string) : regex := fold_right (fun c r => Cat (Chr c) r) Eps (chars s).
Definition Plus (r : regex) : regex := Cat r (Star r).
Fixpoint Rep (n : nat) (r : regex) : regex :=      (* [r{n}] *)
  match n with O => Eps | S n' => Cat r (Rep n' r) end.
Definition AtLeast (n : nat) (r : regex) : regex := Cat (Rep n r) (Star r).  (* [r{n,}] *)

Declare Scope regex_scope.
Delimit Scope regex_scope with re.
Bind Scope regex_scope with regex.
Infix "++" := Cat : regex_scope.

(** The groups of a match, by number; group 0 is the whole match. *)
Abbreviation caps := (gmap nat string).

Definition cont : Type := list ascii -> caps -> option caps.

(** A backtracking matcher in continuation-passing style, as [re]'s engine
    is: alternatives are tried in order (the greedy one first) and the first
    that lets the rest of the pattern succeed is kept.  [s] is what is left
    of the subject. *)
Fixpoint rmatch (r : regex) (s : list ascii) (c : caps) (k : cont) : option caps :=
  match r with
  | Eps => k s c
  | Cls p =>
      match s with
      | a :: s' => if p a then k s' c else None
      | [] => None
      end
  | Cat r1 r2 => rmatch r1 s c (fun s' c' => rmatch r2 s' c' k)
  | Star r1 =>
      (fix loop (fuel : nat) (s : list ascii) (c : caps) {struct fuel} : option caps :=
         match fuel with
         | O => k s c
         | S fuel' =>
             match rmatch r1 s c
                     (fun s' c' => if (length s' <? length s)%nat
                                   then loop fuel' s' c' else None) with
             | Some out => Some out
             | None => k s c
             end
         end) (length s) s c
  | Grp n r1 =>
      rmatch r1 s c
        (fun s' c' => k s' (<[n := text (take (length s - length s') s)]> c'))
  | Eos =>
      match s with
      | [] => k s c
      | [a] => if (code a =? 10)%nat then k s c else None
      | _ => None
      end
  end.

(** A match object: the groups it captured. *)
Record match_obj : Type := MatchObj { groups : caps }.

(** [compiled.match(string)]: the pattern at the start of the subject. *)
Definition re_match (r : regex) (s : string) : option match_obj :=
  MatchObj <$> rmatch (Grp 0 r) (chars s) ∅ (fun _ c => Some c).

(** [compiled.search(string)]: the leftmost position at which the pattern
    matches. *)
Fixpoint search_from (r : regex) (s : list ascii) : option caps :=
  match rmatch (Grp 0 r) s ∅ (fun _ c => Some c) with
  | Some c => Some c
  | None => match s with
            | [] => None
            | _ :: s' => search_from r s'
            end
  end.
Definition re_search (r : regex) (s : string) : option match_obj :=
  MatchObj <$> search_from r (chars s).

(** [m.group(n)]: the text of group [n]; [IndexError] for a group the
    pattern does not have.  (The patterns here have no optional group, so a
    group of the pattern is always set by a match.) *)
Definition match_group {S} (m : match_obj) (n : nat) : M S string :=
  match groups m !! n with
  | Some g => ret g
  | None => raise IndexError
  end.

(** ** What a pattern denotes

    The reading of the patterns against which the matcher is checked. *)

(** [rsem r s c s' c']: from the subject [s] and the groups [c], the
    pattern [r] can consume a prefix of [s], leaving [s'] and the groups
    [c']. *)
Inductive rsem : regex -> list ascii -> caps -> list ascii -> caps -> Prop :=
| sem_eps s c : rsem Eps s c s c
| sem_cls (p : ascii -> bool) a s c : p a = true -> rsem (Cls p) (a :: s) c s c
| sem_cat r1 r2 s c s1 c1 s2 c2 :
    rsem r1 s c s1 c1 -> rsem r2 s1 c1 s2 c2 -> rsem (Cat r1 r2) s c s2 c2
| sem_star_stop r s c : rsem (Star r) s c s c
| sem_star_step r s c s1 c1 s2 c2 :
    rsem r s c s1 c1 -> rsem (Star r) s1 c1 s2 c2 -> rsem (Star r) s c s2 c2
| sem_grp n r s c s' c' :
    rsem r s c s' c' ->
    rsem (Grp n r) s c s' (<[n := text (take (length s - length s') s)]> c')
| sem_eos_end c : rsem Eos [] c [] c
| sem_eos_newline a c : code a = 10%nat -> rsem Eos [a] c [a] c.

(** The numbers of the groups of a pattern. *)
Fixpoint groups_of (r : regex) : list nat :=
  match r with
  | Eps | Cls _ | Eos => []
  | Cat r1 r2 => (groups_of r1 ++ groups_of r2)%list
  | Star r => groups_of r
  | Grp n r => n :: groups_of r
  end.

(* ===================================================================== *)
(** * Python values held in the result of a command                       *)
(* ===================================================================== *)

#[warnings="-register-all"]
Inductive pyval : Type :=
| VNone
| VStr (s : string)
| VInt (z : Z)
| VDict (d : gmap string pyval)
| VCancelled.           (* the "cancelled" marker of a cancelled observer *)

Abbreviation pydict := (gmap string pyval).

Section DictOps.
Context {S : Type}.

(** [v[k]] *)
Definition getitem (v : pyval) (k : string) : M S pyval :=
  match v with
  | VDict d => match d !! k with
               | Some x => mret x
               | None => raise KeyError
               end
  | _ => raise TypeError
  end.

(** [v[k] = x]; the result is the object [v] after the store. *)
Definition setitem (v : pyval) (k : string) (x : pyval) : M S pyval :=
  match v with
  | VDict d => mret (VDict (<[k := x]> d))
  | _ => raise TypeError
  end.

(** [v[p1]...[pn][k] = x]: the objects on the path are fetched with
    [getitem], the last one is stored into. *)
Fixpoint setitem_at (path : list string) (k : string) (x : pyval) (v : pyval)
    : M S pyval :=
  match path with
  | [] => setitem v k x
  | p :: path' =>
      child ← getitem v p;
      child' ← setitem_at path' k x child;
      setitem v p child'
  end.

(** [k in v]: a key of a dict, a substring of a string. *)
Definition contains (v : pyval) (k : string) : M S bool :=
  match v with
  | VDict d => mret (bool_decide (is_Some (d !! k)))
  | VStr s => mret (is_substring k s)
  | _ => raise TypeError
  end.

(** [v[0]] for a string: its first character. *)
Definition first_char (v : pyval) : M S string :=
  match v with
  | VStr (String a _) => mret (String a EmptyString)
  | VStr EmptyString => raise IndexError
  | VDict _ => raise KeyError
  | _ => raise TypeError
  end.
End DictOps.

(* ===================================================================== *)
(** * [moler/cmd/__init__.py]: class RegexHelper                          *)
(* ===================================================================== *)

Module RegexHelper.

(** What an attribute of a helper can evaluate to. *)
Inductive pyobj : Type :=
| PNone
| PMatch (m : match_obj)
| PStr (s : string)
| PBoundMethod (name : string).

(** An instance: its [__dict__].  The constructor and the methods store
    under the one key ["match"]. *)
Record t : Type := Build { inst_dict : gmap string pyobj }.

(** The functions in the body of the class. *)
Definition class_methods : list string :=
  ["search"; "search_compiled"; "match"; "match_compiled"; "get_match";
   "group"; "get_regex_helper"].

(** [self.name]: the instance's [__dict__] first, then the class (a
    function of the class is not a data descriptor, so an instance
    attribute of the same name hides it); the class attribute [instance]
    last. *)
Definition getattr (name : string) : M t pyobj :=
  self ← gets id;
  match inst_dict self !! name with
  | Some v => mret v
  | None =>
      if bool_decide (name ∈ class_methods) then mret (PBoundMethod name)
      else if bool_decide (name = "instance") then mret PNone
      else raise AttributeError
  end.

(** [self.name = v] *)
Definition setattr (name : string) (v : pyobj) : M t unit :=
  modify (fun self => Build (<[name := v]> (inst_dict self))).

Definition of_match (o : option match_obj) : pyobj :=
  match o with Some m => PMatch m | None => PNone end.

(** [__init__] *)
Definition __init__ : t := Build {["match" := PNone]}.

(** [search(self, pattern, string, flags=0)], for [flags = 0]. *)
Definition search (pattern : regex) (string : string) : M t pyobj :=
  setattr "match" (of_match (re_search pattern string));;
  getattr "match".

Definition search_compiled (compiled : regex) (string : string) : M t pyobj :=
  setattr "match" (of_match (re_search compiled string));;
  getattr "match".

(** The function that the class body binds to the name [match]. *)
Definition match_ (pattern : regex) (string : string) : M t pyobj :=
  setattr "match" (of_match (re_match pattern string));;
  getattr "match".

Definition match_compiled (compiled : regex) (string : string) : M t pyobj :=
  setattr "match" (of_match (re_match compiled string));;
  getattr "match".

Definition get_match : M t pyobj := getattr "match".

(** [self.match.group(number)] *)
Definition group (number : nat) : M t string :=
  m ← getattr "match";
  match m with
  | PMatch m => match_group m number
  | _ => raise AttributeError
  end.

(** A method call [helper.name(args)] as written by a client. *)
Inductive call : Type :=
| CallSearch (pattern : regex) (string : string)
| CallSearchCompiled (compiled : regex) (string : string)
| CallMatch (pattern : regex) (string : string)
| CallMatchCompiled (compiled : regex) (string : string)
| CallGetMatch
| CallGroup (number : nat).

Definition attr_name (c : call) : string :=
  match c with
  | CallSearch _ _ => "search"
  | CallSearchCompiled _ _ => "search_compiled"
  | CallMatch _ _ => "match"
  | CallMatchCompiled _ _ => "match_compiled"
  | CallGetMatch => "get_match"
  | CallGroup _ => "group"
  end.

Definition body (c : call) : M t pyobj :=
  match c with
  | CallSearch p s => search p s
  | CallSearchCompiled p s => search_compiled p s
  | CallMatch p s => match_ p s
  | CallMatchCompiled p s => match_compiled p s
  | CallGetMatch => get_match
  | CallGroup n => PStr <$> group n
  end.

(** Evaluating [helper.name(args)]: the attribute is looked up, and called
    if it is a bound method; [None], a match object and a string are not
    callable. *)
Definition invoke (c : call) : M t pyobj :=
  f ← getattr (attr_name c);
  match f with
  | PBoundMethod _ => body c
  | _ => raise TypeError
  end.

(** Truth value of what [search] and its siblings return. *)
Definition truthy (v : pyobj) : bool :=
  match v with
  | PNone => false
  | PStr s => negb (bool_decide (s = ""))
  | _ => true
  end.

(** The instances a program can hold: made by the constructor, then used
    through method calls, whether they return or raise. *)
Inductive reachable : t -> Prop :=
| reach_init : reachable __init__
| reach_ok c h v h' : reachable h -> invoke c h = Ok v h' -> reachable h'
| reach_raise c h e h' : reachable h -> invoke c h = Raise e h' -> reachable h'.

(** The [__dict__] of an instance has the one key ["match"], bound to
    [None] or to a match object. *)
Definition inv (h : t) : Prop :=
  exists v, inst_dict h = {["match" := v]} /\ (v = PNone \/ exists m, v = PMatch m).

End RegexHelper.

(* ===================================================================== *)
(** * The size converter                                                  *)
(* ===================================================================== *)

Module ConverterHelper.

(** Modelled from the spec: [ConverterHelper.to_bytes] of
    [moler/util/converterhelper.py], which is not among the sources.  The
    spec gives the rule: a size token [<number><unit?>] with unit among
    none, K, M, G, T maps to [number * 1024^unit_index] (index 0 for no
    unit), exactly, also for a fractional number; a malformed token is a
    domain error.  [ls.py] takes component [0] of what [to_bytes]
    returns as the number of bytes. *)
Record size_token : Type := SizeToken {
  int_digits : list ascii;       (* digits before the point *)
  frac_digits : list ascii;      (* digits after the point *)
  unit_index : nat               (* 0 none, 1 K, 2 M, 3 G, 4 T *)
}.

Fixpoint span (p : ascii -> bool) (l : list ascii) : list ascii * list ascii :=
  match l with
  | a :: l' => if p a then let '(x, y) := span p l' in (a :: x, y) else ([], l)
  | [] => ([], [])
  end.

Definition unit_of (l : list ascii) : option nat :=
  match text l with
  | "" => Some 0%nat
  | "K" => Some 1%nat
  | "M" => Some 2%nat
  | "G" => Some 3%nat
  | "T" => Some 4%nat
  | _ => None
  end.

Definition parse_token (s : string) : option size_token :=
  let '(ds, rest) := span is_digit (chars s) in
  match ds with
  | [] => None
  | _ =>
      let '(fs, rest') :=
        match rest with
        | a :: r => if (code a =? 46)%nat then span is_digit r else ([], rest)
        | [] => ([], rest)
        end in
      SizeToken ds fs <$> unit_of rest'
  end.

(** The number a token denotes: its digits over the power of ten of the
    fractional part. *)
Definition number (t : size_token) : Q :=
  Qmake (digits_val (int_digits t ++ frac_digits t))
        (Z.to_pos (10 ^ Z.of_nat (length (frac_digits t)))).

Definition multiplier (t : size_token) : Z := 1024 ^ Z.of_nat (unit_index t).

(** [number * 1024^unit_index], as an exact rational. *)
Definition exact_bytes (t : size_token) : Q := (number t * inject_Z (multiplier t))%Q.

(** [to_bytes(str_bytes)]: the bytes as an integer, then the number and
    the unit. *)
Definition to_bytes {S} (str_bytes : string) : M S (Z * Q * nat) :=
  match parse_token str_bytes with
  | Some t => mret (Qfloor (exact_bytes t), number t, unit_index t)
  | None => raise ValueError
  end.

(** The characters of a token of the grammar: the digits, a point and the
    fractional digits when [point] is set, then the letter of the unit. *)
Definition unit_suffix (u : nat) : list ascii :=
  match u with
  | 0%nat => []
  | 1%nat => chars "K"
  | 2%nat => chars "M"
  | 3%nat => chars "G"
  | _ => chars "T"
  end.

Definition token_chars (ds : list ascii) (point : bool) (fs : list ascii) (u : nat)
    : list ascii :=
  (ds ++ (if point then chars "." ++ fs else []) ++ unit_suffix u)%list.

End ConverterHelper.

(* ===================================================================== *)
(** * [moler/cmd/unix/ls.py]: class Ls                                    *)
(* ===================================================================== *)

(** Modelled from the spec: the state of a connection observer (class
    [ConnectionObserver], not among the sources): pending, or one of the
    three terminal states. *)
Inductive obs_state : Type :=
| Pending
| DoneSuccess
| DoneFailure (e : exn)
| Cancelled.

Module Ls.

Definition ws : regex := Plus (Cls is_space).           (* [\s+] *)
Definition nsp : regex := Plus (Cls not_space).         (* [\S+] *)

(** [\S{2,}] *)
Definition _re_files_list : regex := AtLeast 2 (Cls not_space).

(** [total\s+] and then group 1, [\d+\S*] *)
Definition _re_total : regex :=
  (Lit "total" ++ ws ++ Grp 1 (Plus (Cls is_digit) ++ Star (Cls not_space)))%re.

(** [([\w-]{10})\s+(\d+)\s+(\S+)\s+(\S+)\s+(\S+)\s+(\S.*\S)\s+(\S+)] *)
Definition long_columns : regex :=
  (Grp 1 (Rep 10 (Cls is_word_or_dash)) ++ ws ++ Grp 2 (Plus (Cls is_digit)) ++ ws
   ++ Grp 3 nsp ++ ws ++ Grp 4 nsp ++ ws ++ Grp 5 nsp ++ ws
   ++ Grp 6 (Cls not_space ++ Star (Cls not_newline) ++ Cls not_space) ++ ws
   ++ Grp 7 nsp)%re.

(** [...\s*$] *)
Definition _re_long : regex := (long_columns ++ Star (Cls is_space) ++ Eos)%re.

(** [...\s+->\s+(\S+)\s*$] *)
Definition _re_long_links : regex :=
  (long_columns ++ ws ++ Lit "->" ++ ws ++ Grp 8 nsp ++ Star (Cls is_space) ++ Eos)%re.

(** The object.  [_re_prompt], [_regex_helper], [current_ret] and the
    observer's state are attributes set by the base classes
    ([CommandTextualGeneric], [ConnectionObserver]); the result that
    [set_result(self.current_ret)] stores is the very dict [current_ret],
    so it is not held a second time. *)
Record t : Type := Build {
  _re_prompt : regex;
  _regex_helper : RegexHelper.t;
  current_ret : pydict;
  options : option string;
  _state : obs_state
}.

Definition set_regex_helper (h : RegexHelper.t) (self : t) : t :=
  Build (_re_prompt self) h (current_ret self) (options self) (_state self).
Definition set_current_ret (d : pydict) (self : t) : t :=
  Build (_re_prompt self) (_regex_helper self) d (options self) (_state self).
Definition set_state (st : obs_state) (self : t) : t :=
  Build (_re_prompt self) (_regex_helper self) (current_ret self) (options self) st.

(** A call on [self._regex_helper]. *)
Definition helper {A} (m : M RegexHelper.t A) : M t A :=
  zoom _regex_helper set_regex_helper m.

(** [self.current_ret[p1]...[pn][k] = x] *)
Definition store (path : list string) (k : string) (x : pyval) : M t unit :=
  cr ← gets current_ret;
  new ← setitem_at path k x (VDict cr);
  match new with
  | VDict d => modify (set_current_ret d)
  | _ => raise TypeError
  end.

(** [Ls(connection, prompt, newline_chars, options, runner)]: the base
    classes start [current_ret] as an empty dict and give the command a
    regex helper of its own; [prompt] is the compiled prompt. *)
Definition __init__ (prompt : regex) (options : option string) : t :=
  Build prompt RegexHelper.__init__ {["files" := VDict ∅]} options Pending.

Definition build_command_string : M t string :=
  opts ← gets options;
  match opts with
  | Some o => if bool_decide (o = "") then mret "ls" else mret ("ls " +:+ o)
  | None => mret "ls"
  end.

(** Modelled from the spec: [done()] of the observer, true in a terminal
    state. *)
Definition done : M t bool :=
  st ← gets _state;
  mret (match st with Pending => false | _ => true end).

(** Modelled from the spec: [result()] of the observer: the accumulated
    result, [ResultNotAvailableYet] while pending, the stored error after
    a failure, the marker after a cancel. *)
Definition result : M t pyval :=
  st ← gets _state;
  match st with
  | Pending => raise ResultNotAvailableYet
  | DoneSuccess => VDict <$> gets current_ret
  | DoneFailure e => raise e
  | Cancelled => mret VCancelled
  end.

(** Modelled from the spec: [on_new_line] of the base class
    ([GenericUnixCommand], not among the sources): a line on which the
    prompt is found marks a pending command done, with [current_ret] as
    its result. *)
Definition base_on_new_line (line : string) (is_full_line : bool) : M t unit :=
  prompt ← gets _re_prompt;
  st ← gets _state;
  match re_search prompt line, st with
  | Some _, Pending => modify (set_state DoneSuccess)
  | _, _ => mret tt
  end.

Definition int (s : string) : M t Z :=
  match int_of_str s with
  | Some z => mret z
  | None => raise ValueError
  end.

Definition _add_new_file_long (islink : bool) : M t unit :=
  filename ← helper (RegexHelper.group 7);
  store ["files"] filename (VDict ∅);;
  g ← helper (RegexHelper.group 1);
  store ["files"; filename] "permissions" (VStr g);;
  g ← helper (RegexHelper.group 2);
  n ← int g;
  store ["files"; filename] "hard_links_count" (VInt n);;
  g ← helper (RegexHelper.group 3);
  store ["files"; filename] "owner" (VStr g);;
  g ← helper (RegexHelper.group 4);
  store ["files"; filename] "group" (VStr g);;
  g ← helper (RegexHelper.group 5);
  store ["files"; filename] "size_raw" (VStr g);;
  g ← helper (RegexHelper.group 5);
  b ← ConverterHelper.to_bytes g;
  store ["files"; filename] "size_bytes" (VInt b.1.1);;
  g ← helper (RegexHelper.group 6);
  store ["files"; filename] "date" (VStr g);;
  g ← helper (RegexHelper.group 7);
  store ["files"; filename] "name" (VStr g);;
  if islink then
    g ← helper (RegexHelper.group 8);
    store ["files"; filename] "link" (VStr g)
  else mret tt.

Definition _parse_files_list (line : string) : M t unit :=
  m ← helper (RegexHelper.search_compiled _re_files_list line);
  if RegexHelper.truthy m then
    forM_ (fun filename =>
             store ["files"] filename (VDict ∅);;
             store ["files"; filename] "name" (VStr filename))
          (str_split line);;
    raise ParsingDone
  else mret tt.

Definition _parse_long_file (line : string) : M t unit :=
  m ← helper (RegexHelper.search_compiled _re_long line);
  if RegexHelper.truthy m then
    _add_new_file_long false;;
    raise ParsingDone
  else mret tt.

Definition _parse_long_links (line : string) : M t unit :=
  m ← helper (RegexHelper.search_compiled _re_long_links line);
  if RegexHelper.truthy m then
    _add_new_file_long true;;
    raise ParsingDone
  else mret tt.

Definition _parse_total (line : string) : M t unit :=
  m ← helper (RegexHelper.search_compiled _re_total line);
  if RegexHelper.truthy m then
    cr ← gets current_ret;
    (if bool_decide (is_Some (cr !! "total")) then mret tt
     else modify (set_current_ret (<["total" := VDict ∅]> cr)));;
    g ← helper (RegexHelper.group 1);
    store ["total"] "raw" (VStr g);;
    g ← helper (RegexHelper.group 1);
    b ← ConverterHelper.to_bytes g;
    store ["total"] "bytes" (VInt b.1.1);;
    raise ParsingDone
  else mret tt.

Definition on_new_line (line : string) (is_full_line : bool) : M t unit :=
  (if is_full_line then
     try_except
       (_parse_total line;;
        _parse_long_links line;;
        _parse_long_file line;;
        _parse_files_list line)
       ParsingDone
       (mret tt)
   else mret tt);;
  base_on_new_line line is_full_line.

(** [for file_name in v]: the keys of a dict, the characters of a
    string. *)
Definition iter_keys (v : pyval) : M t (list string) :=
  match v with
  | VDict d => mret (map_to_list d).*1
  | VStr s => mret (map (fun a => String a EmptyString) (chars s))
  | _ => raise TypeError
  end.

(** The body of the [for] loop of [_get_types]; [ret] is the dict being
    built. *)
Definition classify (result : pyval) (requested_type : string)
    (ret : pydict) (file_name : string) : M t pydict :=
  files ← getitem result "files";
  file_dict ← getitem files file_name;
  permissions ← getitem file_dict "permissions";
  current_type ← first_char permissions;
  if bool_decide (requested_type = current_type)
  then mret (<[file_name := file_dict]> ret)
  else mret ret.

Definition _get_types (requested_type : string) : M t pydict :=
  d ← done;
  if negb d then raise ResultNotAvailableYet
  else
    let requested_type := lower requested_type in
    result ← result;
    has_files ← contains result "files";
    if (has_files : bool) then
      files ← getitem result "files";
      names ← iter_keys files;
      foldM (classify result requested_type) ∅ names
    else mret ∅.

Definition get_dirs : M t pydict := _get_types "d".
Definition get_links : M t pydict := _get_types "l".
Definition get_files : M t pydict := _get_types "-".

(** The calls of [on_new_line] that the line buffer of the command issues
    for a stream of [(line, is_full_line)] events, one after the other. *)
Definition process_lines (events : list (string * bool)) : M t unit :=
  forM_ (fun ev : string * bool => on_new_line ev.1 ev.2) events.

(** *** Notions used to state the properties *)

(** The parse handlers in the order in which [on_new_line] calls them, each
    with the pattern it searches for. *)
Definition handlers : list (regex * (string -> M t unit)) :=
  [(_re_total, _parse_total); (_re_long_links, _parse_long_links);
   (_re_long, _parse_long_file); (_re_files_list, _parse_files_list)].

(** A line is claimed when the pattern of some handler is found in it. *)
Definition claimed (line : string) : Prop :=
  exists r h, (r, h) ∈ handlers /\ is_Some (re_search r line).

(** The body of the [try] statement of [on_new_line], with its [except]. *)
Definition parse_chain (line : string) : M t unit :=
  try_except
    (_parse_total line;;
     _parse_long_links line;;
     _parse_long_file line;;
     _parse_files_list line)
    ParsingDone
    (mret tt).

(** The command after [self._regex_helper.match = w]. *)
Definition with_match (w : RegexHelper.pyobj) (self : t) : t :=
  set_regex_helper
    (RegexHelper.Build (<["match" := w]> (RegexHelper.inst_dict (_regex_helper self)))) self.

(** The state that a computation ends in, whether it returns or raises. *)
Definition final {A} (o : outcome t A) : t :=
  match o with Ok _ s | Raise _ s => s end.

(** The commands a program can hold: made by the constructor, then fed
    lines through [on_new_line]. *)
Inductive reachable : t -> Prop :=
| reach_init prompt options : reachable (__init__ prompt options)
| reach_line line is_full_line self :
    reachable self -> reachable (final (on_new_line line is_full_line self)).

(** The type character of an entry: the first character of its
    [permissions], if it has that field as a non-empty string. *)
Definition entry_type (v : pyval) : option string :=
  match v with
  | VDict e => match e !! "permissions" with
               | Some (VStr (String a _)) => Some (String a EmptyString)
               | _ => None
               end
  | _ => None
  end.

(** An entry of [files] as the handlers make them: a dict whose
    [permissions], if it has the field, is a non-empty string. *)
Definition wf_entry (v : pyval) : Prop :=
  exists e, v = VDict e
            /\ forall p, e !! "permissions" = Some p -> exists a g, p = VStr (String a g).

(** The helper holds no match, or one whose group 1 is not empty. *)
Definition group1_nonempty (self : t) : Prop :=
  forall m, RegexHelper.inst_dict (_regex_helper self) !! "match" = Some (RegexHelper.PMatch m) ->
            exists a g, groups m !! 1%nat = Some (String a g).

(** The [files] of the accumulated result. *)
Definition files (self : t) : option pydict :=
  match current_ret self !! "files" with
  | Some (VDict fs) => Some fs
  | _ => None
  end.

(** The listing of the end-to-end scenario, as the events of the line
    buffer: three terminated lines, then the prompt, which no newline
    follows. *)
Definition canonical_listing : list (string * bool) :=
  [("total 8", true);
   ("drwxr-xr-x  2 root root 4096 Sep 25 2014 bin", true);
   ("lrwxrwxrwx  1 root root    4 Mar 20 2015 bcn -> /bcn", true);
   ("host:~ #", false)].

(** The prompt of the scenario, [host:~ #\s*$]. *)
Definition canonical_prompt : regex := (Lit "host:~ #" ++ Star (Cls is_space) ++ Eos)%re.

Definition canonical_bin : pyval :=
  VDict (list_to_map
    [("permissions", VStr "drwxr-xr-x"); ("hard_links_count", VInt 2);
     ("owner", VStr "root"); ("group", VStr "root"); ("size_bytes", VInt 4096);
     ("size_raw", VStr "4096"); ("date", VStr "Sep 25 2014"); ("name", VStr "bin")]).

Definition canonical_bcn : pyval :=
  VDict (list_to_map
    [("permissions", VStr "lrwxrwxrwx"); ("hard_links_count", VInt 1);
     ("owner", VStr "root"); ("group", VStr "root"); ("size_bytes", VInt 4);
     ("size_raw", VStr "4"); ("date", VStr "Mar 20 2015"); ("name", VStr "bcn");
     ("link", VStr "/bcn")]).

(** What holds of every command that a program can hold: it is pending or
    done with success, and the [files] of its result is a dict of
    well-formed entries. *)
Definition wf (self : t) : Prop :=
  (_state self = Pending \/ _state self = DoneSuccess)
  /\ exists fs, files self = Some fs /\ forall name v, fs !! name = Some v -> wf_entry v.

(** The state in which the body of a long-format handler runs. *)
Definition armed (self : t) : Prop := wf self /\ group1_nonempty self.

(** The entry that the files-list handler makes for a name. *)
Definition bare_entry (name : string) : pyval := VDict {["name" := VStr name]}.

(** The output of a plain [ls] in the source file ([COMMAND_OUTPUT_ver_plain]),
    as the events of the line buffer. *)
Definition plain_listing : list (string * bool) :=
  [(".ansible               dot1ag-13.2.tgz                       .kde4", true);
   (".bash_history          Downloads", true);
   ("host:~ #", false)].

(** The output of [ls -lh] in the source file ([COMMAND_OUTPUT_ver_human]),
    as the events of the line buffer. *)
Definition human_listing : list (string * bool) :=
  [("total 1T", true);
   ("-rwxr-xr-x 2 root  root  4.0K Nov 10  2016 file1", true);
   ("-rwxr-xr-x 2 root  root  4.5M Nov 10  2016 file2", true);
   ("-rwxr-xr-x 2 root  root  3.0G Nov 10  2016 file3", true);
   ("-rwxr-xr-x 2 root  root  1.0T Nov 10  2016 file4", true);
   ("-rwxr-xr-x 2 root  root    92 Nov 10  2016 file5", true);
   ("host:~ #", false)].

(** One turn of the loop of [_get_types] when it does not raise. *)
Definition select (ty : string) (fs : pydict) (acc : pydict) (name : string) : pydict :=
  match fs !! name with
  | Some v => if bool_decide (entry_type v = Some ty) then <[name := v]> acc else acc
  | None => acc
  end.

(** The entries of type [ty] among [fs]. *)
Definition of_type (ty : string) (fs : pydict) : pydict :=
  filter (fun kv : string * pyval => entry_type kv.2 = Some ty) fs.

(** [v[p1]...[pn]] without the exceptions. *)
Fixpoint at_path (path : list string) (v : pyval) : option pyval :=
  match path with
  | [] => Some v
  | p :: path' => match v with
                  | VDict d => d !! p ≫= at_path path'
                  | _ => None
                  end
  end.

End Ls.

(* ===================================================================== *)
(** * [moler/runner.py]: class ThreadPoolExecutorRunner                   *)
(* ===================================================================== *)

Module Runner.

(** What a future holds once the function it runs has finished. *)
Inductive fut_result : Type :=
| FutValue (v : pyval)
| FutError (e : exn).

(** Modelled from the spec: what the runner uses of a connection observer
    (class [ConnectionObserver], not among the sources) and of the
    connection it is attached to: the timeout field, whether the object
    has a [command_string] attribute, the state, and whether its
    [data_received] callback is among the subscribers of its connection.
    The future that [submit] returned for the observer is kept with
    it; [None] while [feed] is still running. *)
Record observer : Type := Observer {
  timeout : Q;
  command_string : option string;
  state : obs_state;
  subscribed : bool;
  future : option fut_result
}.

(** The calls made on the collaborators, in the order they are made. *)
Inductive event : Type :=
| EvSubscribe (oid : nat)          (* moler_conn.subscribe(observer.data_received) *)
| EvUnsubscribe (oid : nat)        (* moler_conn.unsubscribe(observer.data_received) *)
| EvCancel (oid : nat)             (* connection_observer.cancel() *)
| EvFutureCancel (oid : nat)       (* connection_observer_future.cancel() *)
| EvOnTimeout (oid : nat)          (* connection_observer.on_timeout() *)
| EvShutdown                       (* self.shutdown() *)
| EvExecutorShutdown.              (* self.executor.shutdown() *)

(** The runner, the observers submitted to it (by identity), the clock
    that [time.time()] reads, and the calls made so far.  Every thread
    that uses the runner works on this one state. *)
Record system : Type := System {
  clock : Q;
  _in_shutdown : bool;
  _i_own_executor : bool;
  executor_running : bool;
  observers : gmap nat observer;
  trace : list event
}.

Definition set_clock (q : Q) (s : system) : system :=
  System q (_in_shutdown s) (_i_own_executor s) (executor_running s) (observers s) (trace s).
Definition set_in_shutdown (b : bool) (s : system) : system :=
  System (clock s) b (_i_own_executor s) (executor_running s) (observers s) (trace s).
Definition set_executor_running (b : bool) (s : system) : system :=
  System (clock s) (_in_shutdown s) (_i_own_executor s) b (observers s) (trace s).
Definition set_observers (m : gmap nat observer) (s : system) : system :=
  System (clock s) (_in_shutdown s) (_i_own_executor s) (executor_running s) m (trace s).
Definition log (e : event) (s : system) : system :=
  System (clock s) (_in_shutdown s) (_i_own_executor s) (executor_running s) (observers s)
         (trace s ++ [e]).

Definition update_observer (oid : nat) (f : observer -> observer) (s : system) : system :=
  set_observers (alter f oid (observers s)) s.

Definition set_timeout (q : Q) (o : observer) : observer :=
  Observer q (command_string o) (state o) (subscribed o) (future o).
Definition set_state (st : obs_state) (o : observer) : observer :=
  Observer (timeout o) (command_string o) st (subscribed o) (future o).
Definition set_subscribed (b : bool) (o : observer) : observer :=
  Observer (timeout o) (command_string o) (state o) b (future o).
Definition set_future (r : option fut_result) (o : observer) : observer :=
  Observer (timeout o) (command_string o) (state o) (subscribed o) r.

(** Modelled from the spec: [done()], true in a terminal state. *)
Definition done (o : observer) : bool :=
  match state o with Pending => false | _ => true end.

(** Modelled from the spec: [cancel()] moves a pending observer to
    Cancelled and changes no other. *)
Definition cancel (oid : nat) (s : system) : system :=
  log (EvCancel oid)
    (update_observer oid
       (fun o => match state o with Pending => set_state Cancelled o | _ => o end) s).

(** Modelled from the spec: [on_timeout()] stores a timeout failure in an
    observer that is still pending; terminal states are kept. *)
Definition on_timeout (oid : nat) (s : system) : system :=
  log (EvOnTimeout oid)
    (update_observer oid
       (fun o => match state o with
                 | Pending => set_state (DoneFailure ObservationTimeout) o
                 | _ => o
                 end) s).

(** Modelled from the spec: [subscribe] and [unsubscribe] of the
    connection; removing a callback that is not subscribed changes
    nothing. *)
Definition subscribe (oid : nat) (s : system) : system :=
  log (EvSubscribe oid) (update_observer oid (set_subscribed true) s).
Definition unsubscribe (oid : nat) (s : system) : system :=
  log (EvUnsubscribe oid) (update_observer oid (set_subscribed false) s).

(** [Future.cancel()] of [concurrent.futures]: a future whose function is
    running or has finished is not changed. *)
Definition future_cancel (oid : nat) (s : system) : system :=
  log (EvFutureCancel oid) s.

(** [__init__(self, executor=None)] *)
Definition __init__ (executor_given : bool) : system :=
  System 0 false (negb executor_given) true ∅ [].

Definition shutdown (s : system) : system :=
  let s := set_in_shutdown true (log EvShutdown s) in
  if _i_own_executor s
  then set_executor_running false (log EvExecutorShutdown s)
  else s.

(** The exceptions of [wait_for]: the constructor arguments after the
    observer are the value of [timeout], [kind] and [passed_time]. *)
Inductive timeout_error : Type :=
| CommandTimeout (timeout : option Q) (kind : string) (passed_time : Q)
| ConnectionObserverTimeout (timeout : option Q) (kind : string) (passed_time : Q).

Inductive wait_outcome : Type :=
| Returned (v : pyval)               (* [return result] *)
| Reraised (e : exn)                 (* raised by [future.result()] *)
| TimedOut (e : timeout_error).

(** What the other threads do while [wait_for] is blocked in one call of
    [wait([future], timeout=wait_tick)]: time passes, the caller may
    assign the observer's [timeout], the function of the future may
    finish.  [wait_tick] only bounds how long the call blocks; the time
    that did pass is [elapsed]. *)
Record tick : Type := Tick {
  elapsed : Q;
  new_timeout : option Q;
  finishes : option fut_result
}.

Definition blocked_in_wait (oid : nat) (tk : tick) (s : system) : system :=
  let s := set_clock (clock s + elapsed tk)%Q s in
  let s := match new_timeout tk with
           | Some q => update_observer oid (set_timeout q) s
           | None => s
           end in
  match finishes tk with
  | Some r => update_observer oid
                (fun o => match future o with None => set_future (Some r) o | _ => o end) s
  | None => s
  end.

(** [if timeout:] on [None] or a float. *)
Definition timeout_is_true (timeout : option Q) : bool :=
  match timeout with
  | Some q => negb (Qnum q =? 0)%Z
  | None => false
  end.

(** [remain_time > 0.0] *)
Definition positive (q : Q) : bool := (0 <? Qnum q)%Z.

(** The [while remain_time > 0.0] loop of [wait_for].  [inl] is the
    [return] from inside the loop, [inr] the value of [timeout] when the
    loop ends.  There is no answer if the observer is unknown or if the
    script ends while the loop is still going round. *)
Fixpoint wait_loop (oid : nat) (check_timeout_from_observer : bool)
    (timeout : option Q) (start_time remain_time : Q) (script : list tick)
    (s : system) : option ((wait_outcome + option Q) * system) :=
  if positive remain_time then
    match script with
    | [] => None
    | tk :: script' =>
        let s := blocked_in_wait oid tk s in
        o ← observers s !! oid;
        match future o with
        | Some r =>
            let s := shutdown s in
            Some (inl match r with
                      | FutValue v => Returned v
                      | FutError e => Reraised e
                      end, s)
        | None =>
            let timeout :=
              if check_timeout_from_observer then Some (Runner.timeout o) else timeout in
            match timeout with
            | Some t =>
                wait_loop oid check_timeout_from_observer timeout start_time
                  (t - (clock s - start_time))%Q script' s
            | None => Some (inl (Reraised TypeError), s)
            end
        end
    end
  else Some (inr timeout, s).

Definition wait_for (oid : nat) (timeout : option Q) (script : list tick)
    (s : system) : option (wait_outcome * system) :=
  let start_time := clock s in
  o ← observers s !! oid;
  let remain_time := Runner.timeout o in
  let check_timeout_from_observer := true in
  let '(remain_time, check_timeout_from_observer) :=
    match timeout with
    | Some t => if timeout_is_true timeout then (t, false)
                else (remain_time, check_timeout_from_observer)
    | None => (remain_time, check_timeout_from_observer)
    end in
  '(r, s) ← wait_loop oid check_timeout_from_observer timeout start_time remain_time
              script s;
  match r with
  | inl out => Some (out, s)
  | inr timeout =>
      let s := unsubscribe oid s in
      let passed := (clock s - start_time)%Q in
      let s := cancel oid s in
      let s := future_cancel oid s in
      let s := shutdown s in
      let s := on_timeout oid s in
      o ← observers s !! oid;
      match command_string o with
      | Some _ => Some (TimedOut (CommandTimeout timeout "await_done" passed), s)
      | None => Some (TimedOut (ConnectionObserverTimeout timeout "await_done" passed), s)
      end
  end.

(** One turn of the [while True] loop of [feed]. *)
Inductive loop_ctl : Type := Continue | Break.

Definition feed_body (oid : nat) (s : system) : option (loop_ctl * system) :=
  o ← observers s !! oid;
  if done o then Some (Break, unsubscribe oid s)
  else if _in_shutdown s then Some (Continue, cancel oid s)
  else Some (Continue, s).

(** What the other threads do while [feed] sleeps: the connection may
    deliver data that settles the observer, and any thread may shut the
    runner down. *)
Record nap : Type := Nap {
  settles : option obs_state;
  shuts_down : bool
}.

Definition asleep (oid : nat) (n : nap) (s : system) : system :=
  let s := match settles n with
           | Some st => update_observer oid
                          (fun o => match state o with Pending => set_state st o | _ => o end) s
           | None => s
           end in
  if shuts_down n then shutdown s else s.

Fixpoint feed_loop (oid : nat) (script : list nap) (s : system) : option system :=
  '(ctl, s) ← feed_body oid s;
  match ctl with
  | Break => Some s
  | Continue =>
      match script with
      | [] => None
      | n :: script' => feed_loop oid script' (asleep oid n s)
      end
  end.

(** [feed(self, connection_observer, feed_started)]; what it returns is
    the observer's [result()], which the observer defines. *)
Definition feed (oid : nat) (script : list nap) (s : system) : option system :=
  feed_loop oid script (subscribe oid s).

(** *** Notions used to state the properties *)

(** [quiet oid s s']: from [s] to [s'] no call was made on a collaborator
    and nothing changed but the clock and the [timeout] and [future] of
    observer [oid]. *)
Definition quiet (oid : nat) (s s' : system) : Prop :=
  trace s' = trace s
  /\ _in_shutdown s' = _in_shutdown s
  /\ _i_own_executor s' = _i_own_executor s
  /\ executor_running s' = executor_running s
  /\ (forall oid', oid' <> oid -> observers s' !! oid' = observers s !! oid')
  /\ match observers s !! oid, observers s' !! oid with
     | Some o, Some o' =>
         command_string o' = command_string o /\ state o' = state o
         /\ subscribed o' = subscribed o
     | None, None => True
     | _, _ => False
     end.

(** What [wait_for] hands back when the future has a result. *)
Definition of_future (r : fut_result) : wait_outcome :=
  match r with
  | FutValue v => Returned v
  | FutError e => Reraised e
  end.

(** The calls that [shutdown()] makes. *)
Definition shutdown_calls (s : system) : list event :=
  EvShutdown :: (if _i_own_executor s then [EvExecutorShutdown] else []).

(** A tick without the caller's assignment to the observer's timeout. *)
Definition erase (tk : tick) : tick := Tick (elapsed tk) None (finishes tk).

(** The system without the value of the timeout of observer [oid]. *)
Definition forget (oid : nat) (s : system) : system :=
  update_observer oid (set_timeout 0) s.

(** What a run of [wait_for] shows apart from the value of the timeout of
    observer [oid]. *)
Definition apart_from_timeout (oid : nat) (r : option (wait_outcome * system))
    : option (wait_outcome * system) :=
  (fun rs : wait_outcome * system => (rs.1, forget oid rs.2)) <$> r.

(** A runner with one command submitted to it, observer 1, whose own
    timeout is 10 seconds. *)
Definition one_command : system :=
  System 0 false true true
    {[1%nat := Observer 10 (Some "ls -l") Pending true None]} [].

(** Two seconds of waiting, after which the future has a result. *)
Definition finishes_after_two : list tick :=
  [Tick 1 None None; Tick 1 None (Some (FutValue (VStr "listing")))].

(** The same, with the caller lowering the observer's timeout to half a
    second during the first second. *)
Definition lowered_meanwhile : list tick :=
  [Tick 1 (Some (1 # 2)%Q) None; Tick 1 None (Some (FutValue (VStr "listing")))].

End Runner.


(* ===================================================================== *)
(** * Further notions for the runner                                      *)
(* ===================================================================== *)

Module RunnerLive.
Import Runner.

(** [run_ahead oid start ticks s]: the system after [ticks], if after each
    of them the future of observer [oid] has no result and the observer's
    timeout, as it is then, exceeds the time passed since [start]. *)
Fixpoint run_ahead (oid : nat) (start : Q) (ticks : list tick) (s : system)
    : option system :=
  match ticks with
  | [] => Some s
  | tk :: ticks' =>
      let s1 := blocked_in_wait oid tk s in
      o ← observers s1 !! oid;
      match future o with
      | Some _ => None
      | None =>
          if positive (timeout o - (clock s1 - start))%Q
          then run_ahead oid start ticks' s1
          else None
      end
  end.

(** A runner that is shutting down, with one pending observer, number 7. *)
Definition shutting_down : system :=
  System 5 true false true {[7%nat := Observer 20 None Pending false None]} [EvShutdown].

(** Three seconds during which the caller twice raises the observer's
    timeout of one second, each time before it is used up. *)
Definition raised_in_time : list tick :=
  [Tick (1 # 2) (Some 2%Q) None; Tick 1 (Some 4%Q) None; Tick 1 None None].

(** A runner with one command whose own timeout is one second. *)
Definition short_command : system :=
  System 0 false true true
    {[1%nat := Observer 1 (Some "ls -l") Pending true None]} [].

End RunnerLive.

(* ===================================================================== *)
(** * The class [RegexHelper] and its instances                           *)
(* ===================================================================== *)

Module RegexHelperClass.
Import RegexHelper.

(** The class attribute [instance] ([None] or a reference to an instance)
    and the instances made so far, by reference. *)
Record world : Type := World {
  instance : option nat;
  heap : gmap nat t
}.

(** [RegexHelper()]: a new object, initialised by [__init__]. *)
Definition construct : M world nat :=
  fun w =>
    let r := fresh (dom (heap w)) in
    Ok r (World (instance w) (<[r := __init__]> (heap w))).

(** [get_regex_helper()]; the value returned is the class attribute. *)
Definition get_regex_helper : M world (option nat) :=
  i ← gets instance;
  match i with
  | None =>
      r ← construct;
      modify (fun w => World (Some r) (heap w))
  | Some _ => mret tt
  end;;
  gets instance.

(** A method call through a reference. *)
Definition on {A} (r : nat) (m : M t A) : M world A :=
  fun w =>
    match heap w !! r with
    | Some h =>
        match m h with
        | Ok a h' => Ok a (World (instance w) (<[r := h']> (heap w)))
        | Raise e h' => Raise e (World (instance w) (<[r := h']> (heap w)))
        end
    | None => Raise AttributeError w
    end.

(** What a client does with the value [get_regex_helper] returned: a
    method call on it, which on [None] raises [AttributeError]. *)
Definition on_handed {A} (r : option nat) (m : M t A) : M world A :=
  match r with
  | Some r => on r m
  | None => raise AttributeError
  end.

(** The class attribute refers to an object that exists. *)
Definition sound (w : world) : Prop :=
  match instance w with
  | Some r => is_Some (heap w !! r)
  | None => True
  end.


(** The program start: no helper made yet. *)
Definition at_start : world := World None ∅.

End RegexHelperClass.

(* ===================================================================== *)
(** * Further notions for patterns and for the parse handlers of [Ls]     *)
(* ===================================================================== *)

(** The groups that every match of a pattern sets: those not under a
    star. *)
Fixpoint must_groups (r : regex) : list nat :=
  match r with
  | Grp n r => n :: must_groups r
  | Cat r1 r2 => (must_groups r1 ++ must_groups r2)%list
  | _ => []
  end.

(** The patterns inside the groups numbered [n]. *)
Fixpoint group_body (n : nat) (r : regex) : list regex :=
  match r with
  | Grp m r => if (m =? n)%nat then r :: group_body n r else group_body n r
  | Cat r1 r2 => (group_body n r1 ++ group_body n r2)%list
  | Star r => group_body n r
  | _ => []
  end.

(** Every text that pattern [r] can consume satisfies [P]. *)
Definition consumes_only (P : list ascii -> Prop) (r : regex) : Prop :=
  forall s c s' c' pre, rsem r s c s' c' -> s = (pre ++ s')%list -> P pre.

(** Group [n], if set, holds a text that satisfies [P]. *)
Definition group_holds (n : nat) (P : list ascii -> Prop) (c : caps) : Prop :=
  forall g, c !! n = Some g -> exists pre, g = text pre /\ P pre.

Module LsEffect.
Import Ls.

(** [m.group(n)] for a group that the match set. *)
Definition grp (m : match_obj) (n : nat) : string := default "" (groups m !! n).

(** The fields that [_add_new_file_long] stores before it converts the
    size. *)
Definition first_fields (m : match_obj) : pydict :=
  <["size_raw" := VStr (grp m 5)]>
    (<["group" := VStr (grp m 4)]>
       (<["owner" := VStr (grp m 3)]>
          (<["hard_links_count" := VInt (default 0 (int_of_str (grp m 2)))]>
             (<["permissions" := VStr (grp m 1)]> ∅)))).

(** The entry that a long line leaves under its name: all the fields if
    the size converts, the first fields if it does not. *)
Definition long_entry (islink : bool) (m : match_obj) : pydict :=
  match ConverterHelper.parse_token (grp m 5) with
  | Some tok =>
      let e :=
        <["name" := VStr (grp m 7)]>
          (<["date" := VStr (grp m 6)]>
             (<["size_bytes" := VInt (Qfloor (ConverterHelper.exact_bytes tok))]>
                (first_fields m))) in
      if islink then <["link" := VStr (grp m 8)]> e else e
  | None => first_fields m
  end.

(** What a [total] line leaves in the dict under ["total"], which held
    [old] before. *)
Definition total_entry (m : match_obj) (old : pydict) : pydict :=
  let e := <["raw" := VStr (grp m 1)]> old in
  match ConverterHelper.parse_token (grp m 1) with
  | Some tok => <["bytes" := VInt (Qfloor (ConverterHelper.exact_bytes tok))]> e
  | None => e
  end.

Definition files_of (cr : pydict) : pydict :=
  match cr !! "files" with Some (VDict fs) => fs | _ => ∅ end.

Definition total_of (cr : pydict) : pydict :=
  match cr !! "total" with Some (VDict d) => d | _ => ∅ end.

(** The result after handler number [i] (in the order of [handlers]) ran
    on a line in which its pattern was found, with match [m]. *)
Definition written (i : nat) (m : match_obj) (line : string) (cr : pydict) : pydict :=
  match i with
  | 0%nat => <["total" := VDict (total_entry m (total_of cr))]> cr
  | 1%nat =>
      <["files" := VDict (<[grp m 7 := VDict (long_entry true m)]> (files_of cr))]> cr
  | 2%nat =>
      <["files" := VDict (<[grp m 7 := VDict (long_entry false m)]> (files_of cr))]> cr
  | _ =>
      <["files" := VDict (foldl (fun acc n => <[n := bare_entry n]> acc) (files_of cr)
                            (str_split line))]> cr
  end.

(** The column that handler number [i] passes to [to_bytes]. *)
Definition size_column (i : nat) (m : match_obj) : option string :=
  match i with
  | 0%nat => Some (grp m 1)
  | 1%nat | 2%nat => Some (grp m 5)
  | _ => None
  end.

(** How handler number [i] ends on a line in which its pattern was found:
    with the signal [ParsingDone], or with the [ValueError] of a size that
    does not convert. *)
Definition ends_with (i : nat) (m : match_obj) : exn :=
  match size_column i m with
  | Some g => match ConverterHelper.parse_token g with
              | Some _ => ParsingDone
              | None => ValueError
              end
  | None => ParsingDone
  end.

(** The command that handler number [i] leaves. *)
Definition left_by (i : nat) (m : match_obj) (line : string) (self : t) : t :=
  set_current_ret (written i m line (current_ret self))
    (with_match (RegexHelper.PMatch m) self).

(** The first handler whose pattern is found in the line, with the match. *)
Definition first_claim (line : string) : option (nat * match_obj) :=
  match re_search _re_total line with
  | Some m => Some (0%nat, m)
  | None =>
  match re_search _re_long_links line with
  | Some m => Some (1%nat, m)
  | None =>
  match re_search _re_long line with
  | Some m => Some (2%nat, m)
  | None =>
  match re_search _re_files_list line with
  | Some m => Some (3%nat, m)
  | None => None
  end end end end.

(** The command after [self.current_ret["files"][f] = e], where the dict
    under ["files"] was [fs] and the result [cr]. *)
Definition with_entry (f : string) (e fs : pydict) (cr : pydict) (self : t) : t :=
  set_current_ret (<["files" := VDict (<[f := VDict e]> fs)]> cr) self.

(** The value under ["total"], if any, is a dict. *)
Definition total_ok (self : t) : Prop :=
  current_ret self !! "total" = None
  \/ exists d, current_ret self !! "total" = Some (VDict d).

End LsEffect.
(* ===================================================================== *)
(** * Properties                                                          *)
(* ===================================================================== *)

(** ** The monad *)

Lemma bind_Ok {S A B} (m : M S A) (f : A -> M S B) s a s' :
  m s = Ok a s' -> (m ≫= f) s = f a s'.
Proof. intros H. unfold mbind, M_bind, bind. by rewrite H. Qed.

Lemma bind_Raise {S A B} (m : M S A) (f : A -> M S B) s e s' :
  m s = Raise e s' -> (m ≫= f) s = Raise e s'.
Proof. intros H. unfold mbind, M_bind, bind. by rewrite H. Qed.

Lemma bind_unfold {S A B} (m : M S A) (f : A -> M S B) s :
  (m ≫= f) s = match m s with Ok a s' => f a s' | Raise e s' => Raise e s' end.
Proof. reflexivity. Qed.

(** ** RegexHelper: the attribute [match] hides the method [match] *)

Module RegexHelperFacts.
Import RegexHelper.

Lemma of_match_shape o : of_match o = PNone \/ exists m, of_match o = PMatch m.
Proof. destruct o; simpl; eauto. Qed.

Lemma getattr_match v : getattr "match" (Build {["match" := v]}) = Ok v (Build {["match" := v]}).
Proof. reflexivity. Qed.

Lemma setattr_match v w :
  setattr "match" w (Build {["match" := v]}) = Ok tt (Build {["match" := w]}).
Proof.
  unfold setattr, modify. simpl. by rewrite insert_singleton_eq.
Qed.

Lemma getattr_method v name :
  name <> "match" -> name ∈ class_methods ->
  getattr name (Build {["match" := v]}) = Ok (PBoundMethod name) (Build {["match" := v]}).
Proof.
  intros Hne Hin. unfold getattr. rewrite bind_unfold. simpl.
  rewrite lookup_singleton_ne by done.
  by rewrite bool_decide_eq_true_2.
Qed.

Lemma store_then_read v w :
  (setattr "match" w;; getattr "match") (Build {["match" := v]})
  = Ok w (Build {["match" := w]}).
Proof. rewrite bind_unfold, setattr_match. apply getattr_match. Qed.

Lemma inv_init : inv __init__.
Proof. exists PNone. split; [done | by left]. Qed.

Lemma body_inv c h : inv h ->
  match body c h with Ok _ h' | Raise _ h' => inv h' end.
Proof.
  intros (v & Hd & Hv). destruct h as [d]. simpl in Hd. subst d.
  destruct c as [p s | p s | p s | p s | | n]; simpl;
    unfold search, search_compiled, match_, match_compiled, get_match;
    rewrite ?store_then_read, ?getattr_match;
    try (eexists; split; [reflexivity | apply of_match_shape]);
    try (by exists v).
  unfold fmap, M_fmap, bind, group. rewrite bind_unfold, getattr_match.
  destruct Hv as [-> | [m ->]]; [by exists PNone; eauto |].
  unfold match_group. destruct (groups m !! n); simpl; exists (PMatch m); eauto.
Qed.

Lemma invoke_cases c h : inv h ->
  (attr_name c = "match" /\ invoke c h = Raise TypeError h)
  \/ (attr_name c <> "match" /\ invoke c h = body c h).
Proof.
  intros (v & Hd & Hv). destruct h as [d]. simpl in Hd. subst d.
  destruct (decide (attr_name c = "match")) as [E | E].
  - left. split; [done |]. unfold invoke. rewrite E, bind_unfold, getattr_match.
    by destruct Hv as [-> | [m ->]].
  - right. split; [done |]. unfold invoke. rewrite bind_unfold.
    rewrite getattr_method; [done | done |].
    destruct c; simpl in E |- *; try congruence; unfold class_methods;
      repeat first [apply list_elem_of_here | apply list_elem_of_further].
Qed.

Lemma invoke_inv c h : inv h ->
  match invoke c h with Ok _ h' | Raise _ h' => inv h' end.
Proof.
  intros Hi. destruct (invoke_cases c h Hi) as [[_ ->] | [_ ->]]; [done |].
  by apply body_inv.
Qed.

Lemma reachable_inv h : reachable h -> inv h.
Proof.
  induction 1 as [| c h v h' _ IH E | c h e h' _ IH E].
  - apply inv_init.
  - pose proof (invoke_inv c h IH) as Hi. by rewrite E in Hi.
  - pose proof (invoke_inv c h IH) as Hi. by rewrite E in Hi.
Qed.
End RegexHelperFacts.

(** C9.  For every [RegexHelper] instance, the constructor binds the
    instance attribute [match] (first [None], afterwards what the latest
    search or match returned), and that attribute hides the method
    [match]: calling [match] on an instance fails with [TypeError] whatever
    the arguments and leaves the instance as it is, while [search],
    [search_compiled], [match_compiled], [get_match] and [group] run their
    bodies. *)
Theorem regex_helper_match_is_shadowed (h : RegexHelper.t) :
  RegexHelper.reachable h ->
  RegexHelper.inst_dict RegexHelper.__init__ !! "match" = Some RegexHelper.PNone
  /\ (exists v, RegexHelper.inst_dict h !! "match" = Some v
                /\ (v = RegexHelper.PNone \/ exists m, v = RegexHelper.PMatch m))
  /\ (forall pattern string,
        RegexHelper.invoke (RegexHelper.CallMatch pattern string) h = Raise TypeError h)
  /\ (forall c, RegexHelper.attr_name c <> "match" ->
        RegexHelper.invoke c h = RegexHelper.body c h).
Proof.
  intros Hr. pose proof (RegexHelperFacts.reachable_inv h Hr) as Hi.
  split; [reflexivity |]. split.
  - destruct Hi as (v & Hd & Hv). exists v. rewrite Hd. by rewrite lookup_singleton_eq.
  - split.
    + intros p s.
      destruct (RegexHelperFacts.invoke_cases (RegexHelper.CallMatch p s) h Hi)
        as [[_ E] | [E _]]; [done | by destruct E].
    + intros c Hc.
      destruct (RegexHelperFacts.invoke_cases c h Hi) as [[E _] | [_ E]]; [done | done].
Qed.

Lemma regex_helper_match_is_shadowed_witness :
  let h := RegexHelper.Build {["match" := RegexHelper.of_match (re_search Ls._re_total "total 8")]} in
  RegexHelper.invoke (RegexHelper.CallMatch Ls._re_total "total 8") h = Raise TypeError h.
Proof.
  intros h.
  refine (proj1 (proj2 (proj2 (regex_helper_match_is_shadowed h _))) _ _).
  apply (RegexHelper.reach_ok (RegexHelper.CallSearchCompiled Ls._re_total "total 8")
           RegexHelper.__init__
           (RegexHelper.of_match (re_search Ls._re_total "total 8"))).
  - apply RegexHelper.reach_init.
  - vm_compute. reflexivity.
Defined.

(** ** The matcher against a relational reading of the patterns *)

Module RegexFacts.
(** Whatever the matcher answers is the answer of its continuation at a
    point that the pattern can reach. *)
Lemma rmatch_sound r : forall s c k out,
  rmatch r s c k = Some out ->
  exists s' c', rsem r s c s' c' /\ k s' c' = Some out.
Proof.
  induction r as [| p | r1 IH1 r2 IH2 | r IH | n r IH |]; intros s c k out H; simpl in H.
  - exists s, c. split; [constructor | done].
  - destruct s as [| a s]; [done |]. destruct (p a) eqn:E; [| done].
    exists s, c. split; [by constructor | done].
  - apply IH1 in H as (s1 & c1 & H1 & H). apply IH2 in H as (s2 & c2 & H2 & H).
    exists s2, c2. split; [econstructor; eauto | done].
  - revert H. generalize (length s) at 1. intros fuel. revert s c.
    induction fuel as [| fuel IHf]; intros s c H.
    + exists s, c. split; [constructor | done].
    + match type of H with
      | match ?m with _ => _ end = _ => destruct m as [o |] eqn:E
      end.
      * injection H as ->. apply IH in E as (s1 & c1 & H1 & E).
        destruct (length s1 <? length s)%nat; [| done].
        apply IHf in E as (s2 & c2 & H2 & E).
        exists s2, c2. split; [eapply sem_star_step; eauto | done].
      * exists s, c. split; [constructor | done].
  - apply IH in H as (s1 & c1 & H1 & H).
    eexists _, _. split; [by constructor | done].
  - destruct s as [| a [| b s]]; [| | done].
    + eexists _, _. split; [constructor | done].
    + destruct (code a =? 10)%nat eqn:E; [| done].
      apply Nat.eqb_eq in E.
      eexists _, _. split; [by constructor | done].
Qed.

(** A pattern consumes a prefix. *)
Lemma rsem_suffix r s c s' c' : rsem r s c s' c' -> exists pre, s = (pre ++ s')%list.
Proof.
  induction 1 as [s c | p a s c _ | r1 r2 s c s1 c1 s2 c2 _ [p1 ->] _ [p2 ->]
                 | r s c | r s c s1 c1 s2 c2 _ [p1 ->] _ [p2 ->]
                 | n r s c s' c' _ IH | c | a c _ ].
  - by exists [].
  - by exists [a].
  - exists (p1 ++ p2)%list. by rewrite <- app_assoc.
  - by exists [].
  - exists (p1 ++ p2)%list. by rewrite <- app_assoc.
  - done.
  - by exists [].
  - by exists [].
Qed.

(** A pattern leaves the groups of other patterns alone. *)
Lemma rsem_frame r s c s' c' n :
  rsem r s c s' c' -> n ∉ groups_of r -> c' !! n = c !! n.
Proof.
  induction 1 as [ | | r1 r2 s c s1 c1 s2 c2 _ IH1 _ IH2 | | r s c s1 c1 s2 c2 _ IH1 _ IH2
                 | m r s c s' c' _ IH | | ]; simpl; intros Hn; try done.
  - rewrite not_elem_of_app in Hn. destruct Hn. rewrite IH2, IH1; done.
  - rewrite IH2, IH1; done.
  - rewrite not_elem_of_cons in Hn. destruct Hn as [Hne Hn].
    rewrite lookup_insert_ne by done. by apply IH.
Qed.

(** A group whose pattern starts with a character class captures at least
    that character. *)
Lemma rsem_group_nonempty n p r s c s' c' :
  rsem (Grp n (Cat (Cls p) r)) s c s' c' ->
  exists a g, c' !! n = Some (String a g).
Proof.
  intros H. inversion H as [ | | | | | n0 r0 s0 c0 s0' c0' Hb | | ]; subst.
  inversion Hb as [ | | r1 r2 s0 c0 s1 c1 s2 c2 Hc Hr | | | | | ]; subst.
  inversion Hc; subst.
  apply rsem_suffix in Hr as [pre ->].
  rewrite lookup_insert_eq. simpl length. rewrite length_app.
  replace (S (length pre + length s') - length s')%nat with (S (length pre)) by lia.
  simpl. eauto.
Qed.

(** [search] succeeds with the groups of a match of the pattern at some
    position. *)
Lemma search_from_sound r s c :
  search_from r s = Some c -> exists s0 s', rsem (Grp 0 r) s0 ∅ s' c.
Proof.
  induction s as [| a s IH]; simpl.
  - destruct (rmatch r [] ∅ _) as [o |] eqn:E; [| done].
    intros [= ->]. apply rmatch_sound in E as (s' & c' & H & [= <-]).
    exists [], s'. by apply (sem_grp 0) in H.
  - destruct (rmatch r (a :: s) ∅ _) as [o |] eqn:E.
    + intros [= ->]. apply rmatch_sound in E as (s' & c' & H & [= <-]).
      exists (a :: s), s'. by apply (sem_grp 0) in H.
    + apply IH.
Qed.

End RegexFacts.

(** ** The parser of [ls]: one handler per line *)

Module LsFacts.
Import Ls.

Lemma with_match_twice v w st : with_match w (with_match v st) = with_match w st.
Proof.
  unfold with_match, set_regex_helper. simpl. by rewrite insert_insert_eq.
Qed.

(** [search_compiled] stores what [re] answers and returns it. *)
Lemma search_step r line st :
  helper (RegexHelper.search_compiled r line) st
  = Ok (RegexHelper.of_match (re_search r line))
       (with_match (RegexHelper.of_match (re_search r line)) st).
Proof.
  unfold helper, zoom, RegexHelper.search_compiled. rewrite bind_unfold.
  unfold RegexHelper.setattr, modify, RegexHelper.getattr.
  rewrite bind_unfold. simpl. by rewrite lookup_insert_eq.
Qed.

Lemma truthy_of_match o : RegexHelper.truthy (RegexHelper.of_match o) = bool_decide (is_Some o).
Proof. by destruct o. Qed.

Lemma never_ok_raise {S A} e : never_ok (raise (S:=S) (A:=A) e).
Proof. intros s. by exists e, s. Qed.

Lemma never_ok_bind {S A B} (m : M S A) (f : A -> M S B) :
  (forall a, never_ok (f a)) -> never_ok (m ≫= f).
Proof.
  intros H s. rewrite bind_unfold. destruct (m s) as [a s' | e s']; [apply H | eauto].
Qed.

Lemma never_ok_add_new_file_then_raise b : never_ok (_add_new_file_long b;; raise (A:=unit) ParsingDone).
Proof. apply never_ok_bind. intros _. apply never_ok_raise. Qed.

Ltac handler_unfold :=
  unfold _parse_total, _parse_long_links, _parse_long_file, _parse_files_list;
  rewrite !(bind_unfold (helper _)), !search_step, ?truthy_of_match.

(** A handler whose pattern is not found returns, having stored [None] as
    the helper's match. *)
Lemma handler_skips r h line st :
  (r, h) ∈ handlers -> re_search r line = None ->
  h line st = Ok tt (with_match RegexHelper.PNone st).
Proof.
  unfold handlers. rewrite !elem_of_cons, elem_of_nil.
  intros [E | [E | [E | [E | []]]]] Hn; injection E as -> ->;
    handler_unfold; rewrite Hn; reflexivity.
Qed.

(** A handler whose pattern is found does not return: it ends in
    [raise ParsingDone], unless a statement before that raises. *)
Lemma handler_claims r h line st :
  (r, h) ∈ handlers -> is_Some (re_search r line) ->
  exists e s', h line st = Raise e s'.
Proof.
  unfold handlers. rewrite !elem_of_cons, elem_of_nil.
  intros [E | [E | [E | [E | []]]]] [m Hm]; injection E as -> ->;
    handler_unfold; rewrite Hm; simpl;
    repeat (apply never_ok_bind; intros); apply never_ok_raise.
Qed.

(** What a handler does is the same whatever match the helper held. *)
Lemma handler_forgets r h line v st :
  (r, h) ∈ handlers -> h line (with_match v st) = h line st.
Proof.
  unfold handlers. rewrite !elem_of_cons, elem_of_nil.
  intros [E | [E | [E | [E | []]]]]; injection E as -> ->;
    handler_unfold; rewrite with_match_twice; reflexivity.
Qed.

Lemma base_returns line full st : exists st', base_on_new_line line full st = Ok tt st'.
Proof.
  unfold base_on_new_line, gets, modify, mbind, M_bind, bind, mret, M_ret, ret.
  destruct (re_search _ _), (_state st); eauto.
Qed.

Lemma on_new_line_unfold line full st :
  on_new_line line full st
  = ((if full then parse_chain line else mret tt);; base_on_new_line line full) st.
Proof. reflexivity. Qed.

(** The chain, when handler number [i] is the first whose pattern is
    found, is that handler alone. *)
Lemma parse_chain_first i r h line st :
  handlers !! i = Some (r, h) ->
  (forall j r' h', (j < i)%nat -> handlers !! j = Some (r', h') -> re_search r' line = None) ->
  is_Some (re_search r line) ->
  parse_chain line st = try_except (h line) ParsingDone (mret tt) st.
Proof.
  intros Hi Hbefore Hfound.
  assert (Hin : (r, h) ∈ handlers) by (eapply list_elem_of_lookup_2; eauto).
  destruct (handler_claims r h line st Hin Hfound) as (e & s' & Hr).
  unfold parse_chain, try_except.
  assert (forall r' h', (r', h') ∈ handlers -> re_search r' line = None ->
            forall (k : M t unit) s, (h' line;; k) s = k (with_match RegexHelper.PNone s)) as Hskip.
  { intros r' h' Hin' Hn k s. rewrite bind_unfold.
    by rewrite (handler_skips r' h' line s Hin' Hn). }
  assert (forall v (k : unit -> M t unit), (h line ≫= k) (with_match v st) = Raise e s') as Hstop.
  { intros v k. rewrite bind_unfold, (handler_forgets r h line v st Hin), Hr. done. }
  unfold handlers in *.
  destruct i as [| [| [| [| i]]]]; simpl in Hi; try done; injection Hi as <- <-.
  - rewrite bind_unfold, Hr. done.
  - rewrite (Hskip _re_total _parse_total) by
      (first [apply list_elem_of_here | apply (Hbefore 0%nat _ _parse_total); [lia | done]]).
    rewrite Hstop, Hr. done.
  - rewrite (Hskip _re_total _parse_total) by
      (first [apply list_elem_of_here | apply (Hbefore 0%nat _ _parse_total); [lia | done]]).
    rewrite (Hskip _re_long_links _parse_long_links) by
      (first [apply list_elem_of_further, list_elem_of_here
             | apply (Hbefore 1%nat _ _parse_long_links); [lia | done]]).
    rewrite with_match_twice, Hstop, Hr. done.
  - rewrite (Hskip _re_total _parse_total) by
      (first [apply list_elem_of_here | apply (Hbefore 0%nat _ _parse_total); [lia | done]]).
    rewrite (Hskip _re_long_links _parse_long_links) by
      (first [apply list_elem_of_further, list_elem_of_here
             | apply (Hbefore 1%nat _ _parse_long_links); [lia | done]]).
    rewrite (Hskip _re_long _parse_long_file) by
      (first [apply list_elem_of_further, list_elem_of_further, list_elem_of_here
             | apply (Hbefore 2%nat _ _parse_long_file); [lia | done]]).
    rewrite !with_match_twice.
    rewrite (handler_forgets _re_files_list _parse_files_list) by
      (repeat first [apply list_elem_of_here | apply list_elem_of_further]).
    rewrite Hr. done.
Qed.

Lemma handlers_members :
  (_re_total, _parse_total) ∈ handlers /\ (_re_long_links, _parse_long_links) ∈ handlers
  /\ (_re_long, _parse_long_file) ∈ handlers /\ (_re_files_list, _parse_files_list) ∈ handlers.
Proof.
  unfold handlers.
  split; [apply list_elem_of_here |].
  split; [apply list_elem_of_further, list_elem_of_here |].
  split; [apply list_elem_of_further, list_elem_of_further, list_elem_of_here |].
  apply list_elem_of_further, list_elem_of_further, list_elem_of_further, list_elem_of_here.
Qed.

(** The chain, when no pattern is found, returns with [None] stored as
    the helper's match. *)
Lemma parse_chain_none line st :
  (forall r h, (r, h) ∈ handlers -> re_search r line = None) ->
  parse_chain line st = Ok tt (with_match RegexHelper.PNone st).
Proof.
  intros Hn. unfold parse_chain, try_except.
  destruct handlers_members as (H1 & H2 & H3 & H4).
  assert (forall r' h', (r', h') ∈ handlers ->
            forall (k : M t unit) s, (h' line;; k) s = k (with_match RegexHelper.PNone s)) as Hskip.
  { intros r' h' Hin' k s. rewrite bind_unfold.
    by rewrite (handler_skips r' h' line s Hin' (Hn _ _ Hin')). }
  rewrite (Hskip _ _ H1), (Hskip _ _ H2), (Hskip _ _ H3), !with_match_twice.
  by rewrite (handler_skips _ _ line _ H4 (Hn _ _ H4)), with_match_twice.
Qed.

(** The chain swallows [ParsingDone]. *)
Lemma parse_chain_no_signal line st s' : parse_chain line st <> Raise ParsingDone s'.
Proof.
  unfold parse_chain, try_except.
  match goal with |- context [match ?m with _ => _ end] => destruct m as [[] s1 | e s1] end;
    [done |].
  destruct e; simpl; unfold mret, M_ret, ret; intros H; discriminate H.
Qed.

End LsFacts.

(** C1.  The [ls] command fed the canonical long-format listing (a total
    line, the line of directory [bin], the line of link [bcn], then the
    prompt) ends done, with [total.raw = "8"], [total.bytes = 8],
    [files.bin] carrying [permissions = "drwxr-xr-x"] and
    [size_bytes = 4096], and [files.bcn] carrying [link = "/bcn"]; then
    [get_dirs()] returns [bin] alone, the one entry whose permissions start
    with [d], and [get_links()] returns [bcn] alone, the one that starts
    with [l]. *)
Theorem ls_canonical_listing :
  let cmd := Ls.final (Ls.process_lines Ls.canonical_listing
                         (Ls.__init__ Ls.canonical_prompt (Some "-l"))) in
  let result := VDict (Ls.current_ret cmd) in
  Ls.process_lines Ls.canonical_listing (Ls.__init__ Ls.canonical_prompt (Some "-l"))
    = Ok tt cmd
  /\ Ls.done cmd = Ok true cmd
  /\ Ls.result cmd = Ok result cmd
  /\ Ls.at_path ["total"; "raw"] result = Some (VStr "8")
  /\ Ls.at_path ["total"; "bytes"] result = Some (VInt 8)
  /\ Ls.at_path ["files"; "bin"; "permissions"] result = Some (VStr "drwxr-xr-x")
  /\ Ls.at_path ["files"; "bin"; "size_bytes"] result = Some (VInt 4096)
  /\ Ls.at_path ["files"; "bcn"; "link"] result = Some (VStr "/bcn")
  /\ Ls.files cmd = Some {["bin" := Ls.canonical_bin; "bcn" := Ls.canonical_bcn]}
  /\ Ls.entry_type Ls.canonical_bin = Some "d"
  /\ Ls.entry_type Ls.canonical_bcn = Some "l"
  /\ Ls.get_dirs cmd = Ok {["bin" := Ls.canonical_bin]} cmd
  /\ Ls.get_links cmd = Ok {["bcn" := Ls.canonical_bcn]} cmd.
Proof.
  repeat split; vm_compute; reflexivity.
Qed.

(** C5, as stated, fails: a full line that a parse handler consumed still
    reaches the base handler.  The prompt line, when it arrives terminated,
    is consumed by the files-list handler, and the base handler marks the
    command done all the same; with the parse chain alone the command would
    stay pending. *)
Lemma base_handler_skipped_counterexample :
  ~ (forall line st, Ls.claimed line ->
       Ls.on_new_line line true st = Ls.parse_chain line st).
Proof.
  intros H.
  specialize (H "host:~ #" (Ls.__init__ Ls.canonical_prompt None)).
  assert (Ls.claimed "host:~ #") as Hc.
  { exists Ls._re_files_list, Ls._parse_files_list. split.
    - apply LsFacts.handlers_members.
    - vm_compute. eexists. reflexivity. }
  apply H in Hc. apply (f_equal (fun o => Ls._state (Ls.final o))) in Hc.
  vm_compute in Hc. discriminate Hc.
Qed.

(** ** What the parser maintains *)

Module LsInvariant.
Import Ls.

Section Hoare.
Context {S : Type} (I : S -> Prop).

Lemma hoare_ret {A} (a : A) (P : S -> Prop) (Q : A -> S -> Prop) :
  (forall s, P s -> Q a s) -> hoare I P (mret a) Q.
Proof. intros H s Hs. by apply H. Qed.

Lemma hoare_raise {A} e (P : S -> Prop) (Q : A -> S -> Prop) :
  (forall s, P s -> I s) -> hoare I P (raise e) Q.
Proof. intros H s Hs. by apply H. Qed.

Lemma hoare_bind {A B} (P : S -> Prop) (m : M S A) (f : A -> M S B) Q R :
  hoare I P m Q -> (forall a, hoare I (Q a) (f a) R) -> hoare I P (m ≫= f) R.
Proof.
  intros Hm Hf s Hs. rewrite bind_unfold. specialize (Hm s Hs).
  destruct (m s) as [a s' | e s']; [by apply Hf | done].
Qed.

Lemma hoare_post {A} (P : S -> Prop) (m : M S A) (Q Q' : A -> S -> Prop) :
  (forall a s, Q a s -> Q' a s) -> hoare I P m Q -> hoare I P m Q'.
Proof.
  intros HQ Hm s Hs. specialize (Hm s Hs). destruct (m s); [by apply HQ | done].
Qed.

Lemma hoare_assume {A} (phi : Prop) (P : S -> Prop) (m : M S A) Q :
  (phi -> hoare I P m Q) -> hoare I (fun s => P s /\ phi) m Q.
Proof. intros H s [Hs Hphi]. by apply H. Qed.

Lemma keeps_bind {A B} (m : M S A) (f : A -> M S B) :
  keeps I m -> (forall a, keeps I (f a)) -> keeps I (m ≫= f).
Proof. intros Hm Hf. by apply hoare_bind with (Q := fun _ => I). Qed.

Lemma keeps_ret {A} (a : A) : keeps I (mret a).
Proof. by apply hoare_ret. Qed.

Lemma keeps_raise {A} e : keeps I (raise (A:=A) e).
Proof. by apply hoare_raise. Qed.

Lemma keeps_try_except {A} (m h : M S A) e :
  keeps I m -> keeps I h -> keeps I (try_except m e h).
Proof.
  intros Hm Hh s Hs. unfold try_except. specialize (Hm s Hs).
  destruct (m s) as [a s' | e' s']; [done |].
  destruct (exn_eqb e' e); [by apply Hh | done].
Qed.

Lemma keeps_forM_ {A} (f : A -> M S unit) l :
  (forall a, keeps I (f a)) -> keeps I (forM_ f l).
Proof.
  intros Hf. induction l as [| a l IH]; simpl.
  - apply (keeps_ret tt).
  - by apply (keeps_bind (f a) (fun _ => forM_ f l)).
Qed.
End Hoare.

(** *** Steps that leave the command as it is *)

Lemma helper_group_pure n s : final (helper (RegexHelper.group n) s) = s.
Proof.
  destruct s as [p [d] cr o st].
  unfold helper, zoom, RegexHelper.group, RegexHelper.getattr, match_group, gets,
    mbind, M_bind, bind, mret, M_ret, ret, raise. simpl.
  repeat case_match; simplify_eq; reflexivity.
Qed.

Lemma helper_group_value n s g s' :
  helper (RegexHelper.group n) s = Ok g s' ->
  exists m, RegexHelper.inst_dict (_regex_helper s) !! "match" = Some (RegexHelper.PMatch m)
            /\ groups m !! n = Some g.
Proof.
  destruct s as [p [d] cr o st].
  unfold helper, zoom, RegexHelper.group, RegexHelper.getattr, match_group, gets,
    mbind, M_bind, bind, mret, M_ret, ret, raise. simpl.
  repeat case_match; simplify_eq; try done. intros [= -> _]. eauto.
Qed.

Lemma int_pure g s : final (int g s) = s.
Proof. unfold int. destruct (int_of_str g); reflexivity. Qed.

Lemma to_bytes_pure g (s : t) : final (ConverterHelper.to_bytes g s) = s.
Proof. unfold ConverterHelper.to_bytes. destruct (ConverterHelper.parse_token g); reflexivity. Qed.

(** *** Stores into [current_ret] *)

Lemma files_Some s fs : files s = Some fs <-> current_ret s !! "files" = Some (VDict fs).
Proof.
  unfold files. destruct (current_ret s !! "files") as [[] |]; split; congruence.
Qed.

Lemma wf_set_files s fs' :
  wf s -> (forall name v, fs' !! name = Some v -> wf_entry v) ->
  wf (set_current_ret (<["files" := VDict fs']> (current_ret s)) s).
Proof.
  intros [Hst _] He. split; [done |]. exists fs'. split; [| done].
  apply files_Some. simpl. apply lookup_insert_eq.
Qed.

Lemma wf_set_other s k v :
  k <> "files" -> wf s -> wf (set_current_ret (<[k := v]> (current_ret s)) s).
Proof.
  intros Hk (Hst & fs & Hf & He). split; [done |]. exists fs. split; [| done].
  apply files_Some. simpl. rewrite lookup_insert_ne by done. by apply files_Some.
Qed.

Ltac run_store :=
  unfold store, gets, setitem_at, getitem, setitem, modify, raise,
    mbind, M_bind, bind, mret, M_ret, ret; simpl.

(** [self.current_ret["files"][f] = x] *)
Lemma store_file s f x :
  wf s -> wf_entry x ->
  exists d, final (store ["files"] f x s) = set_current_ret d s /\ wf (set_current_ret d s).
Proof.
  intros Hwf Hx. pose proof Hwf as (_ & fs & Hf & He). apply files_Some in Hf.
  run_store. rewrite Hf. simpl. eexists. split; [reflexivity |].
  apply wf_set_files; [done |]. intros name v.
  rewrite lookup_insert. case_decide; [by intros [= <-] | apply He].
Qed.

(** [self.current_ret["files"][f][k] = x] *)
Lemma store_field s f k x :
  wf s -> (k <> "permissions" \/ exists a g, x = VStr (String a g)) ->
  final (store ["files"; f] k x s) = s
  \/ exists d, final (store ["files"; f] k x s) = set_current_ret d s /\ wf (set_current_ret d s).
Proof.
  intros Hwf Hx. pose proof Hwf as (_ & fs & Hf & He). apply files_Some in Hf.
  run_store. rewrite Hf. simpl.
  destruct (fs !! f) as [v |] eqn:Ef; [| by left].
  destruct (He f v Ef) as (e & -> & Hp). simpl. right.
  eexists. split; [reflexivity |].
  apply wf_set_files; [done |]. intros name v.
  rewrite lookup_insert. case_decide; [| apply He]. intros [= <-].
  exists (<[k := x]> e). split; [done |]. intros p.
  rewrite lookup_insert. case_decide; [| apply Hp].
  intros [= <-]. destruct Hx as [Hk | Hx]; [by subst | done].
Qed.

(** [self.current_ret["total"][k] = x] *)
Lemma store_total s k x :
  wf s ->
  final (store ["total"] k x s) = s
  \/ exists d, final (store ["total"] k x s) = set_current_ret d s /\ wf (set_current_ret d s).
Proof.
  intros Hwf. run_store.
  destruct (current_ret s !! "total") as [[| | | d |] |]; simpl; try by left.
  right. eexists. split; [reflexivity |]. by apply wf_set_other.
Qed.

(** *** Group 1 of a long-format match *)

Lemma first_group_nonempty p r1 r2 r3 s s' c :
  rsem (Grp 0 (Cat (Cat (Grp 1 (Cat (Cls p) r1)) r2) r3)) s ∅ s' c ->
  1%nat ∉ groups_of r2 -> 1%nat ∉ groups_of r3 ->
  exists a g, c !! 1%nat = Some (String a g).
Proof.
  intros H H2 H3.
  inversion H as [ | | | | | n0 r0 s0 c0 s0' c0' Hb | | ]; subst.
  inversion Hb as [ | | ra rb sa ca sb cb sc cc Hcols Htail | | | | | ]; subst.
  inversion Hcols as [ | | ra rb sa ca sd cd se ce Hg Hrest | | | | | ]; subst.
  apply RegexFacts.rsem_group_nonempty in Hg as (a & g & Hg).
  exists a, g. rewrite lookup_insert_ne by done.
  rewrite (RegexFacts.rsem_frame _ _ _ _ _ _ Htail H3).
  by rewrite (RegexFacts.rsem_frame _ _ _ _ _ _ Hrest H2).
Qed.

Lemma not_in_groups (n : nat) (l : list nat) : forallb (fun k => negb (k =? n)%nat) l = true -> n ∉ l.
Proof.
  induction l as [| k l IH]; simpl; [intros _; apply not_elem_of_nil |].
  intros [Hk Hl]%andb_prop. apply not_elem_of_cons. split; [| by apply IH].
  apply negb_true_iff, Nat.eqb_neq in Hk. congruence.
Qed.

Lemma long_group1 r line m :
  r = _re_long \/ r = _re_long_links ->
  re_search r line = Some m ->
  exists a g, groups m !! 1%nat = Some (String a g).
Proof.
  intros Hr. unfold re_search. destruct (search_from r (chars line)) as [c |] eqn:E; [| done].
  intros [= <-]. simpl. apply RegexFacts.search_from_sound in E as (s0 & s' & H).
  destruct Hr as [-> | ->].
  - eapply (first_group_nonempty _ _ _ _ _ _ _ H); apply not_in_groups; reflexivity.
  - eapply (first_group_nonempty _ _ _ _ _ _ _ H); apply not_in_groups; reflexivity.
Qed.

(** *** The handlers maintain [wf] *)

Lemma armed_set_current_ret d s : group1_nonempty s -> group1_nonempty (set_current_ret d s).
Proof. done. Qed.

Lemma hoare_pure {A} (m : M t A) :
  (forall s, final (m s) = s) -> hoare wf armed m (fun _ => armed).
Proof.
  intros Hp s Hs. specialize (Hp s). destruct (m s) as [a s' | e s']; simpl in Hp; subst;
    [done | apply Hs].
Qed.

Lemma hoare_group1 :
  hoare wf armed (helper (RegexHelper.group 1))
    (fun g s => armed s /\ exists a g', g = String a g').
Proof.
  intros s Hs. pose proof (helper_group_pure 1 s) as Hp.
  destruct (helper (RegexHelper.group 1) s) as [g s' | e s'] eqn:E; simpl in Hp; subst s';
    [| apply Hs].
  split; [done |]. apply helper_group_value in E as (m & Hm & Hg).
  destruct Hs as [_ H1]. destruct (H1 m Hm) as (a & g' & Hg'). exists a, g'. congruence.
Qed.

Lemma hoare_store_file f :
  hoare wf armed (store ["files"] f (VDict ∅)) (fun _ => armed).
Proof.
  intros s [Hwf Hg].
  destruct (store_file s f (VDict ∅) Hwf) as (d & Hf & Hd).
  { exists ∅. split; [done |]. intros p. by rewrite lookup_empty. }
  destruct (store _ _ _ s); simpl in Hf; subst; [split |]; done.
Qed.

Lemma hoare_store_field f k x :
  (k <> "permissions" \/ exists a g, x = VStr (String a g)) ->
  hoare wf armed (store ["files"; f] k x) (fun _ => armed).
Proof.
  intros Hx s [Hwf Hg].
  destruct (store_field s f k x Hwf Hx) as [Hf | (d & Hf & Hd)];
    destruct (store _ _ _ s); simpl in Hf; subst; first [done | split; done].
Qed.

Ltac long_step :=
  first
    [ apply hoare_store_file
    | apply hoare_store_field; left; discriminate
    | apply hoare_pure; first [apply helper_group_pure | apply int_pure | apply to_bytes_pure] ].

Lemma add_new_file_long_wf islink :
  hoare wf armed (_add_new_file_long islink) (fun _ => wf).
Proof.
  apply (hoare_post wf armed _ (fun _ => armed)); [by intros ? s [] |].
  unfold _add_new_file_long.
  eapply hoare_bind; [long_step | intros filename].
  eapply hoare_bind; [long_step | intros ?].
  eapply hoare_bind; [apply hoare_group1 | intros g].
  eapply hoare_bind.
  { apply hoare_assume. intros (c1 & g' & ->). apply hoare_store_field. right. eauto. }
  intros ?.
  do 16 (eapply hoare_bind; [long_step | intros ?]).
  destruct islink.
  - eapply hoare_bind; [long_step | intros ?]. long_step.
  - by apply hoare_ret.
Qed.

Lemma wf_with_match w s : wf s -> wf (with_match w s).
Proof. done. Qed.

Lemma keeps_helper {A} (m : M RegexHelper.t A) : keeps wf (helper m).
Proof.
  intros s Hs. unfold helper, zoom. destruct (m (_regex_helper s)); done.
Qed.

Lemma keeps_store_total k x : keeps wf (store ["total"] k x).
Proof.
  intros s Hwf. destruct (store_total s k x Hwf) as [Hf | (d & Hf & Hd)];
    destruct (store _ _ _ s); simpl in Hf; subst; done.
Qed.

Lemma keeps_store_name f : keeps wf (store ["files"] f (VDict ∅);; store ["files"; f] "name" (VStr f)).
Proof.
  apply keeps_bind.
  - intros s Hwf. destruct (store_file s f (VDict ∅) Hwf) as (d & Hf & Hd).
    { exists ∅. split; [done |]. intros p. by rewrite lookup_empty. }
    destruct (store _ _ _ s); simpl in Hf; subst; done.
  - intros ? s Hwf.
    destruct (store_field s f "name" (VStr f) Hwf) as [Hf | (d & Hf & Hd)]; [by left | |];
      destruct (store _ _ _ s); simpl in Hf; subst; done.
Qed.

Lemma keeps_to_bytes g : keeps wf (ConverterHelper.to_bytes (S:=t) g).
Proof.
  intros s Hs. pose proof (to_bytes_pure g s) as Hp.
  destruct (ConverterHelper.to_bytes g s); simpl in Hp; subst; done.
Qed.

Lemma keeps_long r line :
  r = _re_long \/ r = _re_long_links -> forall islink,
  keeps wf (m ← helper (RegexHelper.search_compiled r line);
            if RegexHelper.truthy m then _add_new_file_long islink;; raise ParsingDone
            else mret tt).
Proof.
  intros Hr islink s Hs. rewrite bind_unfold, LsFacts.search_step.
  destruct (re_search r line) as [m |] eqn:E; simpl; [| done].
  assert (armed (with_match (RegexHelper.PMatch m) s)) as Ha.
  { split; [done |]. intros m'. simpl. rewrite lookup_insert_eq. intros [= <-].
    by apply (long_group1 r line). }
  apply (hoare_bind wf armed _ _ (fun _ => wf) (fun _ => wf)); [| | done].
  - apply add_new_file_long_wf.
  - intros ?. by apply hoare_raise.
Qed.

Lemma keeps_parse_total line : keeps wf (_parse_total line).
Proof.
  unfold _parse_total. apply keeps_bind; [apply keeps_helper | intros m].
  destruct (RegexHelper.truthy m); [| apply keeps_ret].
  apply (hoare_bind wf wf _ _ (fun cr s => wf s /\ cr = current_ret s)).
  { intros s Hs. done. }
  intros cr. apply (hoare_bind wf _ _ _ (fun _ => wf)).
  { intros s [Hs ->]. destruct (bool_decide _); [done |].
    unfold modify. by apply wf_set_other. }
  intros ?.
  repeat (apply keeps_bind;
          [first [apply keeps_helper | apply keeps_store_total | apply keeps_to_bytes] | intros ?]).
  apply keeps_raise.
Qed.

Lemma keeps_parse_files_list line : keeps wf (_parse_files_list line).
Proof.
  unfold _parse_files_list. apply keeps_bind; [apply keeps_helper | intros m].
  destruct (RegexHelper.truthy m); [| apply keeps_ret].
  apply keeps_bind; [| intros ?; apply keeps_raise].
  apply keeps_forM_. intros f. apply keeps_store_name.
Qed.

Lemma keeps_base line full : keeps wf (base_on_new_line line full).
Proof.
  intros s Hs. unfold base_on_new_line, gets, modify, mbind, M_bind, bind, mret, M_ret, ret.
  destruct (re_search _ _), (_state s) eqn:E; try done.
  destruct Hs as (_ & Hf). split; [by right | done].
Qed.

Lemma keeps_on_new_line line full : keeps wf (on_new_line line full).
Proof.
  unfold on_new_line. apply keeps_bind; [| intros ?; apply keeps_base].
  destruct full; [| apply keeps_ret].
  apply keeps_try_except; [| apply keeps_ret].
  apply keeps_bind; [apply keeps_parse_total | intros ?].
  apply keeps_bind; [apply (keeps_long _re_long_links); by right | intros ?].
  apply keeps_bind; [apply (keeps_long _re_long); by left | intros ?].
  apply keeps_parse_files_list.
Qed.

Lemma wf_init prompt options : wf (__init__ prompt options).
Proof.
  split; [by left |]. exists ∅. split; [done |]. intros name v. by rewrite lookup_empty.
Qed.

(** Every command that a program can hold is well formed. *)
Lemma reachable_wf s : reachable s -> wf s.
Proof.
  induction 1 as [prompt options | line full s _ IH]; [apply wf_init |].
  pose proof (keeps_on_new_line line full s IH) as H.
  destruct (on_new_line line full s); done.
Qed.

End LsInvariant.

(** ** The filtering accessors *)

Module LsAccessors.
Import Ls.

Lemma get_types_pending ty s :
  _state s = Pending -> _get_types ty s = Raise ResultNotAvailableYet s.
Proof.
  intros H. unfold _get_types, done, gets, mbind, M_bind, bind, mret, M_ret, ret.
  by rewrite H.
Qed.

(** The prologue of [_get_types] on a command that is done with success. *)
Lemma get_types_done ty s fs :
  _state s = DoneSuccess -> files s = Some fs ->
  _get_types ty s
  = foldM (classify (VDict (current_ret s)) (lower ty)) ∅ (map_to_list fs).*1 s.
Proof.
  intros Hst Hf. apply LsInvariant.files_Some in Hf.
  unfold _get_types, done, result, contains, getitem, iter_keys, gets, fmap, M_fmap,
    mbind, M_bind, bind, mret, M_ret, ret.
  rewrite Hst. simpl. rewrite Hst. simpl. rewrite Hf. simpl. reflexivity.
Qed.

(** One turn of the loop on a well-formed entry. *)
Lemma classify_entry s fs ty acc name v :
  files s = Some fs -> fs !! name = Some v -> wf_entry v ->
  classify (VDict (current_ret s)) ty acc name s
  = match entry_type v with
    | Some _ => Ok (select ty fs acc name) s
    | None => Raise KeyError s
    end.
Proof.
  intros Hf Hv (e & -> & Hp). apply LsInvariant.files_Some in Hf.
  unfold classify, select, getitem, first_char, raise, entry_type,
    mbind, M_bind, bind, mret, M_ret, ret.
  rewrite Hf, Hv. simpl.
  destruct (e !! "permissions") as [p |] eqn:E; [| done].
  destruct (Hp p eq_refl) as (a & g & ->).
  destruct (decide (ty = String a "")) as [-> | Hne].
  - by rewrite !bool_decide_eq_true_2.
  - rewrite !bool_decide_eq_false_2; [done | congruence | done].
Qed.

(** The loop, when every entry has a type, returns what [select] gathers. *)
Lemma loop_returns s fs ty l : forall acc,
  files s = Some fs ->
  (forall name, name ∈ l -> exists v, fs !! name = Some v /\ wf_entry v
                                       /\ is_Some (entry_type v)) ->
  foldM (classify (VDict (current_ret s)) ty) acc l s = Ok (foldl (select ty fs) acc l) s.
Proof.
  induction l as [| name l IH]; intros acc Hf Hl; [done |].
  destruct (Hl name) as (v & Hv & Hw & [t Ht]); [apply list_elem_of_here |].
  simpl. unfold bind. rewrite (classify_entry s fs ty acc name v Hf Hv Hw), Ht.
  apply IH; [done |]. intros n Hn. apply Hl. by apply list_elem_of_further.
Qed.

(** The loop, when some entry has no [permissions], raises [KeyError]. *)
Lemma loop_raises s fs ty l : forall acc,
  files s = Some fs ->
  (forall name, name ∈ l -> exists v, fs !! name = Some v /\ wf_entry v) ->
  (exists name v, name ∈ l /\ fs !! name = Some v /\ entry_type v = None) ->
  foldM (classify (VDict (current_ret s)) ty) acc l s = Raise KeyError s.
Proof.
  induction l as [| name l IH]; intros acc Hf Hl (bad & vb & Hin & Hb & Hnone).
  - by apply elem_of_nil in Hin.
  - destruct (Hl name) as (v & Hv & Hw); [apply list_elem_of_here |].
    simpl. unfold bind. rewrite (classify_entry s fs ty acc name v Hf Hv Hw).
    destruct (entry_type v) as [t |] eqn:Ht; [| done].
    apply IH; [done | |].
    + intros n Hn. apply Hl. by apply list_elem_of_further.
    + exists bad, vb. split; [| done].
      apply elem_of_cons in Hin as [-> | Hin]; [congruence | done].
Qed.

Lemma lookup_select ty fs l : forall acc k,
  foldl (select ty fs) acc l !! k
  = if bool_decide (k ∈ l)
    then match fs !! k with
         | Some v => if bool_decide (entry_type v = Some ty) then Some v else acc !! k
         | None => acc !! k
         end
    else acc !! k.
Proof.
  induction l as [| name l IH]; intros acc k; cbn [foldl].
  - by rewrite bool_decide_eq_false_2 by apply not_elem_of_nil.
  - rewrite IH. destruct (decide (k = name)) as [-> | Hne].
    + rewrite (bool_decide_eq_true_2 (name ∈ name :: l)) by apply list_elem_of_here.
      unfold select. destruct (fs !! name) as [v |] eqn:E.
      * destruct (bool_decide (entry_type v = Some ty)) eqn:B.
        -- rewrite lookup_insert_eq. by destruct (bool_decide (name ∈ l)).
        -- by destruct (bool_decide (name ∈ l)).
      * by destruct (bool_decide (name ∈ l)).
    + assert (select ty fs acc name !! k = acc !! k) as ->.
      { unfold select. destruct (fs !! name); [destruct (bool_decide _) |];
          rewrite ?lookup_insert_ne; done. }
      assert (bool_decide (k ∈ name :: l) = bool_decide (k ∈ l)) as ->; [| done].
      apply bool_decide_ext. rewrite elem_of_cons.
      split; [intros [-> | ?]; done | by right].
Qed.

(** Gathering over the keys of [fs] is the filter. *)
Lemma select_all ty fs : foldl (select ty fs) ∅ (map_to_list fs).*1 = of_type ty fs.
Proof.
  apply map_eq. intros k. rewrite lookup_select. unfold of_type.
  rewrite map_lookup_filter, lookup_empty.
  destruct (fs !! k) as [v |] eqn:E; simpl.
  - rewrite bool_decide_eq_true_2.
    + case_bool_decide; [by rewrite option_guard_True | by rewrite option_guard_False].
    + apply list_elem_of_fmap. exists (k, v). split; [done |]. by apply elem_of_map_to_list.
  - by destruct (bool_decide _).
Qed.

Lemma keys_of fs (name : string) (P : pyval -> Prop) :
  (forall n v, fs !! n = Some v -> P v) ->
  name ∈ (map_to_list fs).*1 -> exists v : pyval, fs !! name = Some v /\ P v.
Proof.
  intros H Hin. apply list_elem_of_fmap in Hin as ([n v] & -> & Hin).
  apply elem_of_map_to_list in Hin. exists v. split; [done |]. by apply (H n).
Qed.

End LsAccessors.

Module LsFilesList.
Import Ls.

Lemma reachable_process_lines events : forall s,
  reachable s -> reachable (final (process_lines events s)).
Proof.
  unfold process_lines. induction events as [| [line full] events IH]; intros s Hs; [done |].
  simpl. unfold bind. pose proof (reach_line line full s Hs) as Hr.
  destruct (on_new_line line full s) as [[] s' | e s']; simpl in *; [by apply IH | done].
Qed.

Lemma done_true s : done s = Ok true s <-> _state s <> Pending.
Proof.
  unfold done, gets, mbind, M_bind, bind, mret, M_ret, ret.
  destruct (_state s); split; (congruence || done).
Qed.

Lemma done_false s : done s = Ok false s <-> _state s = Pending.
Proof.
  unfold done, gets, mbind, M_bind, bind, mret, M_ret, ret.
  destruct (_state s); split; (congruence || done).
Qed.

(** The two stores that the files-list handler makes for a name. *)
Lemma store_name s fs n :
  files s = Some fs ->
  exists s', (store ["files"] n (VDict ∅);; store ["files"; n] "name" (VStr n)) s = Ok tt s'
             /\ files s' = Some (<[n := bare_entry n]> fs)
             /\ _state s' = _state s.
Proof.
  intros Hf. apply LsInvariant.files_Some in Hf.
  unfold store, gets, setitem_at, getitem, setitem, modify, raise,
    mbind, M_bind, bind, mret, M_ret, ret. simpl.
  rewrite Hf. simpl. rewrite lookup_insert_eq. simpl. rewrite lookup_insert_eq. simpl.
  eexists. split; [reflexivity |]. split; [| reflexivity].
  apply LsInvariant.files_Some. simpl. rewrite lookup_insert_eq.
  by rewrite insert_insert_eq, insert_empty.
Qed.

Lemma store_names l : forall s fs,
  files s = Some fs ->
  exists s', forM_ (fun filename =>
                      store ["files"] filename (VDict ∅);;
                      store ["files"; filename] "name" (VStr filename)) l s = Ok tt s'
             /\ files s' = Some (foldl (fun acc n => <[n := bare_entry n]> acc) fs l)
             /\ _state s' = _state s.
Proof.
  induction l as [| n l IH]; intros s fs Hf; simpl.
  - by exists s.
  - destruct (store_name s fs n Hf) as (s1 & H1 & Hf1 & Hst1).
    destruct (IH s1 _ Hf1) as (s2 & H2 & Hf2 & Hst2).
    exists s2. unfold bind at 1.
    change (store ["files"] n (VDict ∅) ≫= _) with
      (store ["files"] n (VDict ∅);; store ["files"; n] "name" (VStr n)).
    rewrite H1. split; [done |]. split; [done | congruence].
Qed.

(** The files-list handler on a line it claims: every name on the line gets
    an entry that holds the name and nothing else. *)
Lemma files_list_records_names line s fs :
  files s = Some fs -> is_Some (re_search _re_files_list line) ->
  exists s', _parse_files_list line s = Raise ParsingDone s'
             /\ files s' = Some (foldl (fun acc n => <[n := bare_entry n]> acc) fs
                                   (str_split line))
             /\ _state s' = _state s.
Proof.
  intros Hf [m Hm]. unfold _parse_files_list.
  rewrite bind_unfold, LsFacts.search_step, Hm. simpl.
  destruct (store_names (str_split line) (with_match (RegexHelper.PMatch m) s) fs Hf)
    as (s' & H & Hf' & Hst).
  exists s'. rewrite bind_unfold, H. done.
Qed.

End LsFilesList.

(** C7.  While an [ls] command is not done, [get_dirs()], [get_links()] and
    [get_files()] raise [ResultNotAvailableYet] and leave the command, its
    accumulated result included, as it was; once the command is done they
    return the entries whose [permissions] start with [d], [l] and [-],
    the entries being those that have the field. *)
Theorem accessors_need_done_command :
  (forall st, Ls.done st = Ok false st ->
     Ls.get_dirs st = Raise ResultNotAvailableYet st
     /\ Ls.get_links st = Raise ResultNotAvailableYet st
     /\ Ls.get_files st = Raise ResultNotAvailableYet st)
  /\ (forall st fs,
        Ls.reachable st -> Ls.done st = Ok true st -> Ls.files st = Some fs ->
        (forall name v, fs !! name = Some v -> is_Some (Ls.entry_type v)) ->
        Ls.get_dirs st = Ok (Ls.of_type "d" fs) st
        /\ Ls.get_links st = Ok (Ls.of_type "l" fs) st
        /\ Ls.get_files st = Ok (Ls.of_type "-" fs) st).
Proof.
  split.
  - intros st Hd%LsFilesList.done_false.
    repeat split; by apply LsAccessors.get_types_pending.
  - intros st fs Hr Hd%LsFilesList.done_true Hf Hall.
    pose proof (LsInvariant.reachable_wf st Hr) as Hwf.
    destruct Hwf as ([Hst | Hst] & fs' & Hf' & He); [done |].
    assert (fs' = fs) as -> by congruence.
    assert (forall ty, Ls._get_types ty st = Ok (Ls.of_type (lower ty) fs) st) as H.
    { intros ty. rewrite (LsAccessors.get_types_done ty st fs Hst Hf).
      rewrite (LsAccessors.loop_returns st fs); [by rewrite LsAccessors.select_all | done |].
      intros name Hin.
      destruct (LsAccessors.keys_of fs name (fun v => Ls.wf_entry v /\ is_Some (Ls.entry_type v)))
        as (v & Hv & Hw & Ht); [| done | by exists v].
      intros n v Hv. split; [by apply (He n) | by apply (Hall n)]. }
    repeat split; apply H.
Qed.

Lemma accessors_need_done_command_witness :
  let cmd := Ls.final (Ls.process_lines Ls.canonical_listing
                         (Ls.__init__ Ls.canonical_prompt (Some "-l"))) in
  let fs : pydict := {["bin" := Ls.canonical_bin; "bcn" := Ls.canonical_bcn]} in
  Ls.get_links cmd = Ok (Ls.of_type "l" fs) cmd.
Proof.
  intros cmd fs.
  refine (proj1 (proj2 (proj2 accessors_need_done_command cmd fs _ _ _ _))).
  - apply LsFilesList.reachable_process_lines, Ls.reach_init.
  - vm_compute. reflexivity.
  - vm_compute. reflexivity.
  - change (map_Forall (fun _ v => is_Some (Ls.entry_type v)) fs).
    apply map_Forall_to_list. vm_compute. repeat econstructor.
Defined.

(** C10.  The files-list handler records only the name of each file, and a
    done [ls] command whose result has an entry without a [permissions]
    field makes [get_dirs()], [get_links()] and [get_files()] raise
    [KeyError], whatever the other entries are; the command is left as it
    was. *)
Theorem accessors_fail_on_bare_entry :
  (forall line st fs,
     Ls.files st = Some fs -> is_Some (re_search Ls._re_files_list line) ->
     exists st', Ls._parse_files_list line st = Raise ParsingDone st'
                 /\ Ls.files st' = Some (foldl (fun acc n => <[n := Ls.bare_entry n]> acc) fs
                                           (str_split line))
                 /\ forall n, Ls.at_path ["permissions"] (Ls.bare_entry n) = None)
  /\ (forall st fs name e,
        Ls.reachable st -> Ls.done st = Ok true st -> Ls.files st = Some fs ->
        fs !! name = Some (VDict e) -> e !! "permissions" = None ->
        Ls.get_dirs st = Raise KeyError st
        /\ Ls.get_links st = Raise KeyError st
        /\ Ls.get_files st = Raise KeyError st).
Proof.
  split.
  - intros line st fs Hf Hm.
    destruct (LsFilesList.files_list_records_names line st fs Hf Hm) as (st' & H & Hf' & _).
    exists st'. repeat split; done.
  - intros st fs name e Hr Hd%LsFilesList.done_true Hf Hn He.
    pose proof (LsInvariant.reachable_wf st Hr) as Hwf.
    destruct Hwf as ([Hst | Hst] & fs' & Hf' & Hw); [done |].
    assert (fs' = fs) as -> by congruence.
    assert (forall ty, Ls._get_types ty st = Raise KeyError st) as H.
    { intros ty. rewrite (LsAccessors.get_types_done ty st fs Hst Hf).
      apply (LsAccessors.loop_raises st fs); [done | |].
      - intros n Hin. by apply (LsAccessors.keys_of fs n Ls.wf_entry).
      - exists name, (VDict e). split; [| split; [done |]].
        + apply list_elem_of_fmap. exists (name, VDict e). split; [done |].
          by apply elem_of_map_to_list.
        + unfold Ls.entry_type. by rewrite He. }
    repeat split; apply H.
Qed.

Lemma accessors_fail_on_bare_entry_witness :
  let cmd := Ls.final (Ls.process_lines Ls.plain_listing
                         (Ls.__init__ Ls.canonical_prompt None)) in
  Ls.get_dirs cmd = Raise KeyError cmd.
Proof.
  intros cmd.
  refine (proj1 (proj2 accessors_fail_on_bare_entry cmd
                   (list_to_map [(".ansible", Ls.bare_entry ".ansible");
                                 ("dot1ag-13.2.tgz", Ls.bare_entry "dot1ag-13.2.tgz");
                                 (".kde4", Ls.bare_entry ".kde4");
                                 (".bash_history", Ls.bare_entry ".bash_history");
                                 ("Downloads", Ls.bare_entry "Downloads")])
                   "Downloads" {["name" := VStr "Downloads"]} _ _ _ _ _)).
  - apply LsFilesList.reachable_process_lines, Ls.reach_init.
  - vm_compute. reflexivity.
  - vm_compute. reflexivity.
  - vm_compute. reflexivity.
  - vm_compute. reflexivity.
Defined.

(** ** The size converter *)

Module ConverterFacts.
Import ConverterHelper.

Lemma span_digits ds rest :
  forallb is_digit ds = true ->
  match rest with [] => True | a :: _ => is_digit a = false end ->
  span is_digit (ds ++ rest)%list = (ds, rest).
Proof.
  intros Hd Hr. induction ds as [| d ds IH]; cbn [span app forallb] in *.
  - destruct rest as [| a rest]; [done |]. cbn [span]. by rewrite Hr.
  - apply andb_prop in Hd as [-> Hd]. by rewrite IH.
Qed.

Lemma unit_suffix_not_digit u rest :
  match (unit_suffix u ++ rest)%list with
  | [] => True
  | a :: _ => rest = [] -> is_digit a = false
  end.
Proof. destruct u as [| [| [| [| u]]]]; simpl; try done. by destruct rest. Qed.

Lemma unit_of_suffix u : (u <= 4)%nat -> unit_of (unit_suffix u) = Some u.
Proof.
  intros Hu. destruct u as [| [| [| [| [| u]]]]]; try reflexivity. lia.
Qed.

(** The parser accepts every token of the grammar and reads it as
    written. *)
Lemma parse_token_grammar s ds point fs u :
  chars s = token_chars ds point fs u ->
  ds <> [] -> forallb is_digit ds = true -> forallb is_digit fs = true ->
  (point = false -> fs = []) -> (u <= 4)%nat ->
  parse_token s = Some (SizeToken ds fs u).
Proof.
  intros Hs Hne Hds Hfs Hp Hu. unfold parse_token, token_chars in *. rewrite Hs.
  assert (forall l, match (unit_suffix u ++ l)%list with
                    | [] => True | a :: _ => l = [] -> is_digit a = false end) as Hsuf
    by (intros; apply unit_suffix_not_digit).
  destruct point.
  - rewrite (span_digits ds); [| done | done].
    destruct ds as [| d ds]; [done |].
    change ((chars "." ++ fs) ++ unit_suffix u)%list with ("."%char :: (fs ++ unit_suffix u))%list.
    cbv iota. assert ((code "."%char =? 46)%nat = true) as -> by reflexivity.
    rewrite (span_digits fs); [| done |].
    + by rewrite unit_of_suffix.
    + specialize (Hsuf []). rewrite app_nil_r in Hsuf.
      destruct (unit_suffix u); [done | by apply Hsuf].
  - rewrite (Hp eq_refl) in *. simpl.
    specialize (Hsuf []). rewrite app_nil_r in Hsuf.
    rewrite (span_digits ds); [| done | destruct (unit_suffix u); [done | by apply Hsuf]].
    destruct ds as [| d ds]; [done |].
    destruct u as [| [| [| [| [| u]]]]]; try reflexivity. lia.
Qed.

(** The bytes are the integer part of [number * 1024^unit_index], and that
    product itself when it is an integer. *)
Lemma floor_exact t :
  (inject_Z (Qfloor (exact_bytes t)) <= exact_bytes t)%Q
  /\ (exact_bytes t < inject_Z (Qfloor (exact_bytes t) + 1))%Q
  /\ ((Z.pos (Qden (exact_bytes t)) | Qnum (exact_bytes t))%Z ->
      (inject_Z (Qfloor (exact_bytes t)) == exact_bytes t)%Q).
Proof.
  split; [apply Qfloor_le |]. split; [apply Qlt_floor |].
  destruct (exact_bytes t) as [n d]. simpl. intros [k ->].
  unfold Qeq. simpl. rewrite Z.div_mul by done. lia.
Qed.

End ConverterFacts.

(** C6.  The size conversion maps a token [<number><unit?>], with unit among
    none, K, M, G, T, to [number * 1024^unit_index]: every token of that
    grammar is accepted and read as written, the bytes returned are the
    integer part of the exact product and the product itself whenever it is
    an integer, also for a fractional number; so ["4.5M"] gives 4718592,
    ["1T"] gives 1099511627776 and ["92"] gives 92, and the [ls] command fed
    the [ls -lh] listing of its source file stores these sizes. *)
Theorem size_token_conversion :
  (forall (st : Ls.t) s ds point fs u,
     chars s = ConverterHelper.token_chars ds point fs u ->
     ds <> [] -> forallb is_digit ds = true -> forallb is_digit fs = true ->
     (point = false -> fs = []) -> (u <= 4)%nat ->
     let t := ConverterHelper.SizeToken ds fs u in
     ConverterHelper.number t
       = Qmake (digits_val (ds ++ fs)) (Z.to_pos (10 ^ Z.of_nat (length fs)))
     /\ ConverterHelper.exact_bytes t
        = (ConverterHelper.number t * inject_Z (1024 ^ Z.of_nat u))%Q
     /\ ConverterHelper.to_bytes s st
        = Ok (Qfloor (ConverterHelper.exact_bytes t), ConverterHelper.number t, u) st
     /\ (inject_Z (Qfloor (ConverterHelper.exact_bytes t)) <= ConverterHelper.exact_bytes t)%Q
     /\ (ConverterHelper.exact_bytes t
         < inject_Z (Qfloor (ConverterHelper.exact_bytes t) + 1))%Q
     /\ ((Z.pos (Qden (ConverterHelper.exact_bytes t))
          | Qnum (ConverterHelper.exact_bytes t))%Z ->
         (inject_Z (Qfloor (ConverterHelper.exact_bytes t))
          == ConverterHelper.exact_bytes t)%Q))
  /\ (forall st : Ls.t,
        (ConverterHelper.to_bytes "4.5M" st = Ok (4718592, 4.5%Q, 2%nat) st
         /\ (inject_Z 4718592 == 4.5 * inject_Z (1024 ^ 2))%Q)
        /\ (ConverterHelper.to_bytes "1T" st = Ok (1099511627776, 1%Q, 4%nat) st
            /\ (inject_Z 1099511627776 == 1 * inject_Z (1024 ^ 4))%Q)
        /\ ConverterHelper.to_bytes "92" st = Ok (92, 92%Q, 0%nat) st)
  /\ (let cmd := Ls.final (Ls.process_lines Ls.human_listing
                             (Ls.__init__ Ls.canonical_prompt (Some "-lh"))) in
      let result := VDict (Ls.current_ret cmd) in
      Ls.at_path ["total"; "bytes"] result = Some (VInt 1099511627776)
      /\ Ls.at_path ["files"; "file1"; "size_bytes"] result = Some (VInt 4096)
      /\ Ls.at_path ["files"; "file2"; "size_bytes"] result = Some (VInt 4718592)
      /\ Ls.at_path ["files"; "file3"; "size_bytes"] result = Some (VInt 3221225472)
      /\ Ls.at_path ["files"; "file4"; "size_bytes"] result = Some (VInt 1099511627776)
      /\ Ls.at_path ["files"; "file5"; "size_bytes"] result = Some (VInt 92)).
Proof.
  split; [| split].
  - intros st s ds point fs u Hs Hne Hds Hfs Hp Hu t.
    split; [reflexivity |]. split; [reflexivity |]. split.
    + unfold ConverterHelper.to_bytes.
      by rewrite (ConverterFacts.parse_token_grammar s ds point fs u).
    + apply ConverterFacts.floor_exact.
  - intros st. repeat split; vm_compute; reflexivity.
  - repeat split; vm_compute; reflexivity.
Qed.

Lemma size_token_conversion_witness :
  let st := Ls.__init__ Ls.canonical_prompt None in
  let t := ConverterHelper.SizeToken (chars "4") (chars "0") 1 in
  ConverterHelper.to_bytes "4.0K" st
  = Ok (Qfloor (ConverterHelper.exact_bytes t), ConverterHelper.number t, 1%nat) st
  /\ Qfloor (ConverterHelper.exact_bytes t) = 4096
  /\ (inject_Z (Qfloor (ConverterHelper.exact_bytes t)) == ConverterHelper.exact_bytes t)%Q.
Proof.
  intros st t.
  destruct (proj1 size_token_conversion st "4.0K" (chars "4") true (chars "0") 1%nat)
    as (_ & _ & Hb & _ & _ & Hx).
  - reflexivity.
  - discriminate.
  - reflexivity.
  - reflexivity.
  - discriminate.
  - lia.
  - split; [exact Hb |]. split; [reflexivity |].
    apply Hx. exists 4096. reflexivity.
Defined.

(** ** The runner: what the polling loop of [wait_for] leaves untouched *)

Module RunnerFacts.
Import Runner.

Lemma quiet_refl oid s : quiet oid s s.
Proof.
  unfold quiet. repeat split; try done. by destruct (observers s !! oid).
Qed.

Lemma quiet_trans oid s1 s2 s3 : quiet oid s1 s2 -> quiet oid s2 s3 -> quiet oid s1 s3.
Proof.
  unfold quiet. intros (Ht & Hs & Ho & He & Hf & Hm) (Ht' & Hs' & Ho' & He' & Hf' & Hm').
  repeat split; try congruence.
  - intros oid' Hne. rewrite Hf', Hf; done.
  - destruct (observers s1 !! oid), (observers s2 !! oid), (observers s3 !! oid);
      try done. destruct Hm as (? & ? & ?), Hm' as (? & ? & ?). repeat split; congruence.
Qed.

Lemma quiet_update oid (f : observer -> observer) s :
  (forall o, command_string (f o) = command_string o /\ state (f o) = state o
             /\ subscribed (f o) = subscribed o) ->
  quiet oid s (update_observer oid f s).
Proof.
  intros Hf. unfold quiet, update_observer. simpl. repeat split; try done.
  - intros oid' Hne. by rewrite lookup_alter_ne.
  - rewrite lookup_alter_eq. destruct (observers s !! oid); simpl; [apply Hf | done].
Qed.

Lemma quiet_blocked oid tk s : quiet oid s (blocked_in_wait oid tk s).
Proof.
  unfold blocked_in_wait.
  apply (quiet_trans oid s (set_clock (clock s + elapsed tk)%Q s)).
  { unfold quiet. simpl. repeat split; try done. by destruct (observers s !! oid). }
  destruct (new_timeout tk) as [q |], (finishes tk) as [r |];
    repeat first
      [ apply quiet_refl
      | eapply quiet_trans; [apply quiet_update | apply quiet_update]
      | apply quiet_update ];
    intros o; try done; by destruct (future o).
Qed.

(** The loop, when it ends because no time remains, made no call. *)
Lemma wait_loop_expires oid chk script : forall tmo start rem s tmo' s',
  wait_loop oid chk tmo start rem script s = Some (inr tmo', s') ->
  quiet oid s s'.
Proof.
  induction script as [| tk script IH]; intros tmo start rem s tmo' s'; simpl.
  - destruct (positive rem); [done |]. intros [= _ <-]. apply quiet_refl.
  - destruct (positive rem); [| intros [= _ <-]; apply quiet_refl].
    destruct (observers (blocked_in_wait oid tk s) !! oid) as [o |] eqn:Eo; [| done].
    simpl. destruct (future o) as [r |]; [done |].
    destruct chk.
    + intros H%IH. eapply quiet_trans; [apply quiet_blocked | done].
    + destruct tmo as [t |]; [| done].
      intros H%IH. eapply quiet_trans; [apply quiet_blocked | done].
Qed.

(** The loop, when it returns from inside, saw a result in the future and
    shut the runner down, having made no call before. *)
Lemma wait_loop_returns oid chk script : forall tmo start rem s out s',
  (chk = true \/ is_Some tmo) ->
  wait_loop oid chk tmo start rem script s = Some (inl out, s') ->
  exists s1 o r, quiet oid s s1 /\ observers s1 !! oid = Some o /\ future o = Some r
                 /\ out = of_future r /\ s' = shutdown s1.
Proof.
  induction script as [| tk script IH]; intros tmo start rem s out s' Hc; simpl.
  - by destruct (positive rem).
  - destruct (positive rem); [| done].
    destruct (observers (blocked_in_wait oid tk s) !! oid) as [o |] eqn:Eo; [| done].
    simpl. destruct (future o) as [r |] eqn:Ef.
    + intros [= <- <-]. exists (blocked_in_wait oid tk s), o, r.
      split; [apply quiet_blocked | done].
    + destruct chk.
      * intros (s1 & o1 & r1 & Hq & H)%IH; [| by left].
        exists s1, o1, r1. split; [| done].
        eapply quiet_trans; [apply quiet_blocked | done].
      * destruct Hc as [[=] | [t ->]].
        intros (s1 & o1 & r1 & Hq & H)%IH; [| by right].
        exists s1, o1, r1. split; [| done].
        eapply quiet_trans; [apply quiet_blocked | done].
Qed.

(** [wait_for] is the loop, then either its [return] or the timeout path. *)
Lemma wait_for_cases oid timeout script s out s' :
  wait_for oid timeout script s = Some (out, s') ->
  (exists s1 o r, quiet oid s s1 /\ observers s1 !! oid = Some o /\ future o = Some r
                  /\ out = of_future r /\ s' = shutdown s1)
  \/ (exists s1 o tmo,
        quiet oid s s1 /\ observers s !! oid = Some o
        /\ s' = on_timeout oid (shutdown (future_cancel oid (cancel oid (unsubscribe oid s1))))
        /\ out = TimedOut
                   (match command_string o with
                    | Some _ => CommandTimeout tmo "await_done" (clock s1 - clock s)
                    | None => ConnectionObserverTimeout tmo "await_done" (clock s1 - clock s)
                    end)).
Proof.
  unfold wait_for. destruct (observers s !! oid) as [o |] eqn:Eo; [| done]. simpl.
  set (args := match timeout with
               | Some t => if timeout_is_true timeout then (t, false) else (Runner.timeout o, true)
               | None => (Runner.timeout o, true)
               end).
  assert (args.2 = true \/ is_Some timeout) as Hc.
  { subst args. destruct timeout as [t |]; [| by left].
    destruct (timeout_is_true (Some t)); [right; eauto | by left]. }
  destruct args as [rem chk]. simpl in Hc.
  destruct (wait_loop oid chk timeout (clock s) rem script s) as [[[out1 | tmo] s1] |] eqn:E;
    [| | done]; simpl.
  - intros [= <- <-]. left. by apply (wait_loop_returns oid chk script timeout (clock s) rem).
  - apply wait_loop_expires in E. intros H. right.
    match type of H with
    | (?x ≫= _) = _ => destruct x as [o2 |] eqn:Eo2
    end; simpl in H; [| done].
    assert (command_string o2 = command_string o) as Hcs.
    { destruct E as (_ & _ & _ & _ & _ & Hm). rewrite Eo in Hm.
      destruct (observers s1 !! oid) as [o1 |] eqn:Eo1; [| done].
      destruct Hm as (Hm & _).
      unfold shutdown, future_cancel, cancel, unsubscribe, update_observer in Eo2.
      destruct (_i_own_executor _) in Eo2; simpl in Eo2;
        rewrite !lookup_alter_eq, Eo1 in Eo2; simpl in Eo2; injection Eo2 as <-;
        rewrite <- Hm; simpl; by repeat case_match. }
    exists s1, o, tmo. split; [done |]. split; [done |].
    rewrite Hcs in H. destruct (command_string o); by injection H as <- <-.
Qed.

Lemma shutdown_trace s : trace (shutdown s) = (trace s ++ shutdown_calls s)%list.
Proof.
  unfold shutdown, shutdown_calls. simpl.
  destruct (_i_own_executor s); simpl; [| done]. by rewrite <- app_assoc.
Qed.

Lemma shutdown_flag s : _in_shutdown (shutdown s) = true.
Proof. unfold shutdown. simpl. by destruct (_i_own_executor s). Qed.

Lemma shutdown_observers s : observers (shutdown s) = observers s.
Proof. unfold shutdown. simpl. by destruct (_i_own_executor s). Qed.

Lemma shutdown_owner s : _i_own_executor (shutdown s) = _i_own_executor s.
Proof. unfold shutdown. simpl. by destruct (_i_own_executor s) eqn:E. Qed.

End RunnerFacts.

Module RunnerPaths.
Import Runner.

Lemma wait_loop_stop oid chk tmo start rem script s :
  positive rem = false -> wait_loop oid chk tmo start rem script s = Some (inr tmo, s).
Proof. intros H. destruct script; simpl; by rewrite H. Qed.

(** An explicit timeout of zero is not told apart from no timeout. *)
Lemma zero_is_no_timeout oid z script s o :
  observers s !! oid = Some o -> Qnum z = 0 -> positive (timeout o) = true ->
  wait_for oid (Some z) script s = wait_for oid None script s.
Proof.
  intros Ho Hz Hp. unfold wait_for. rewrite Ho. simpl.
  unfold timeout_is_true. rewrite Hz. simpl.
  destruct script as [| tk script]; simpl; rewrite Hp; [done |].
  destruct (observers (blocked_in_wait oid tk s) !! oid) as [o1 |]; [| done]. simpl.
  by destruct (future o1).
Qed.

(** The state of the awaited observer after the timeout path. *)
Lemma timeout_path_observer oid s1 o1 :
  observers s1 !! oid = Some o1 ->
  exists o', observers (on_timeout oid (shutdown (future_cancel oid
                          (cancel oid (unsubscribe oid s1))))) !! oid = Some o'
             /\ subscribed o' = false /\ done o' = true.
Proof.
  intros Ho. unfold on_timeout, log, update_observer. simpl.
  rewrite RunnerFacts.shutdown_observers. unfold future_cancel, cancel, unsubscribe,
    log, update_observer. simpl.
  rewrite !lookup_alter_eq, Ho. simpl. eexists. split; [reflexivity |].
  unfold done. destruct o1 as [t c [] b f]; simpl; done.
Qed.

Lemma timeout_path_trace oid s1 :
  trace (on_timeout oid (shutdown (future_cancel oid (cancel oid (unsubscribe oid s1)))))
  = (trace s1 ++ [EvUnsubscribe oid; EvCancel oid; EvFutureCancel oid]
       ++ shutdown_calls s1 ++ [EvOnTimeout oid])%list.
Proof.
  unfold on_timeout, log, update_observer. simpl. rewrite RunnerFacts.shutdown_trace.
  unfold shutdown_calls, future_cancel, cancel, unsubscribe, log, update_observer. simpl.
  destruct (_i_own_executor s1); simpl; by rewrite <- !app_assoc.
Qed.

Lemma timeout_path_clock oid s1 :
  clock (on_timeout oid (shutdown (future_cancel oid (cancel oid (unsubscribe oid s1)))))
  = clock s1.
Proof.
  unfold on_timeout, log, update_observer, shutdown. simpl.
  by destruct (_i_own_executor s1).
Qed.

End RunnerPaths.

(** C2.  When the deadline expires inside [wait_for], the calls made are,
    in this order: [unsubscribe] of the observer's callback, [cancel()] of the
    observer, [cancel()] of the future, [shutdown()], [on_timeout()]; only
    then is the timeout error raised, [CommandTimeout] for an observer with
    a [command_string] and [ConnectionObserverTimeout] otherwise, carrying
    the time that passed since [wait_for] started; the observer ends
    unsubscribed and done.  And the deadline does expire: with an explicit
    positive timeout and a first wait that outlasts it without a result,
    [wait_for] raises the timeout error. *)
Theorem wait_for_timeout_unsubscribes_first (oid : nat) :
  (forall timeout script s e s',
     Runner.wait_for oid timeout script s = Some (Runner.TimedOut e, s') ->
     exists o tmo,
       Runner.observers s !! oid = Some o
       /\ Runner.trace s'
          = (Runner.trace s
               ++ [Runner.EvUnsubscribe oid; Runner.EvCancel oid; Runner.EvFutureCancel oid]
               ++ Runner.shutdown_calls s ++ [Runner.EvOnTimeout oid])%list
       /\ e = match Runner.command_string o with
              | Some _ => Runner.CommandTimeout tmo "await_done"
                            (Runner.clock s' - Runner.clock s)
              | None => Runner.ConnectionObserverTimeout tmo "await_done"
                          (Runner.clock s' - Runner.clock s)
              end
       /\ (exists o', Runner.observers s' !! oid = Some o'
                      /\ Runner.subscribed o' = false /\ Runner.done o' = true)
       /\ Runner._in_shutdown s' = true)
  /\ (forall t tk script s o,
        Runner.observers s !! oid = Some o -> Runner.future o = None ->
        Runner.positive t = true -> Runner.finishes tk = None ->
        Runner.positive (t - (Runner.clock s + Runner.elapsed tk - Runner.clock s))%Q = false ->
        exists e s', Runner.wait_for oid (Some t) (tk :: script) s
                     = Some (Runner.TimedOut e, s')).
Proof.
  split.
  - intros timeout script s e s' H.
    apply RunnerFacts.wait_for_cases in H
      as [(s1 & o & r & _ & _ & _ & Hout & _) | (s1 & o & tmo & Hq & Ho & -> & Hout)].
    { destruct r; discriminate Hout. }
    injection Hout as ->. exists o, tmo. split; [done |].
    pose proof Hq as (Htr & _ & Hown & _ & _ & Hm).
    split; [| split; [by rewrite RunnerPaths.timeout_path_clock | split]].
    + rewrite RunnerPaths.timeout_path_trace, Htr. unfold Runner.shutdown_calls.
      by rewrite Hown.
    + rewrite Ho in Hm. destruct (Runner.observers s1 !! oid) as [o1 |] eqn:E; [| done].
      by apply RunnerPaths.timeout_path_observer with (o1 := o1).
    + unfold Runner.on_timeout, Runner.log, Runner.update_observer. simpl.
      apply RunnerFacts.shutdown_flag.
  - intros t tk script s o Ho Hf Hp Hfin Hrem.
    assert (Runner.timeout_is_true (Some t) = true) as Htrue.
    { unfold Runner.timeout_is_true, Runner.positive in *.
      apply Z.ltb_lt in Hp. apply negb_true_iff, Z.eqb_neq. lia. }
    assert (exists o1, Runner.observers (Runner.blocked_in_wait oid tk s) !! oid = Some o1
                       /\ Runner.future o1 = None) as (o1 & Ho1 & Hf1).
    { unfold Runner.blocked_in_wait. rewrite Hfin.
      destruct (Runner.new_timeout tk) as [q |]; simpl.
      - rewrite lookup_alter_eq, Ho. simpl. eauto.
      - eauto. }
    assert (Runner.clock (Runner.blocked_in_wait oid tk s)
            = (Runner.clock s + Runner.elapsed tk)%Q) as Hclock.
    { unfold Runner.blocked_in_wait.
      by destruct (Runner.new_timeout tk), (Runner.finishes tk). }
    assert (Runner.wait_loop oid false (Some t) (Runner.clock s) t (tk :: script) s
            = Some (inr (Some t), Runner.blocked_in_wait oid tk s)) as Hloop.
    { cbn [Runner.wait_loop]. rewrite Hp, Ho1. cbn [mbind option_bind]. rewrite Hf1, Hclock.
      by apply RunnerPaths.wait_loop_stop. }
    destruct (RunnerPaths.timeout_path_observer oid _ o1 Ho1) as (o' & Ho' & _).
    unfold Runner.wait_for. rewrite Ho. cbn [mbind option_bind]. rewrite Htrue, Hloop.
    cbn [mbind option_bind]. rewrite Ho'. cbn [mbind option_bind].
    destruct (Runner.command_string o'); eauto.
Qed.

Lemma wait_for_timeout_unsubscribes_first_witness :
  exists e s', Runner.wait_for 1 (Some (1 # 2)%Q) Runner.finishes_after_two Runner.one_command
               = Some (Runner.TimedOut e, s')
               /\ Runner.trace s'
                  = [Runner.EvUnsubscribe 1; Runner.EvCancel 1; Runner.EvFutureCancel 1;
                     Runner.EvShutdown; Runner.EvExecutorShutdown; Runner.EvOnTimeout 1].
Proof.
  destruct (proj2 (wait_for_timeout_unsubscribes_first 1) (1 # 2)%Q
              (Runner.Tick 1 None None)
              [Runner.Tick 1 None (Some (Runner.FutValue (VStr "listing")))]
              Runner.one_command
              (Runner.Observer 10 (Some "ls -l") Pending true None))
    as (e & s' & H); try reflexivity.
  exists e, s'. split; [exact H |].
  destruct (proj1 (wait_for_timeout_unsubscribes_first 1) _ _ _ _ _ H)
    as (o & tmo & _ & Htr & _).
  exact Htr.
Defined.

(** C8.  Whenever [wait_for] sees the awaited future complete, it calls
    [shutdown()] on the runner before it hands back the result of the
    future: nothing was called before, the runner's [_in_shutdown] flag is
    set, and no other observer was touched.  So every other feed loop of
    the same runner whose observer is still pending cancels that observer on
    its next turn, and on the turn after that it unsubscribes the observer
    and ends. *)
Theorem wait_for_completion_shuts_runner_down
    (oid : nat) (timeout : option Q) (script : list Runner.tick)
    (s s' : Runner.system) (out : Runner.wait_outcome) :
  Runner.wait_for oid timeout script s = Some (out, s') ->
  (forall e, out <> Runner.TimedOut e) ->
  (exists o r, Runner.observers s' !! oid = Some o /\ Runner.future o = Some r
               /\ out = Runner.of_future r)
  /\ Runner._in_shutdown s' = true
  /\ Runner.trace s' = (Runner.trace s ++ Runner.shutdown_calls s)%list
  /\ (forall oid' o',
        oid' <> oid -> Runner.observers s !! oid' = Some o' ->
        Runner.state o' = Pending ->
        Runner.observers s' !! oid' = Some o'
        /\ Runner.feed_body oid' s' = Some (Runner.Continue, Runner.cancel oid' s')
        /\ Runner.observers (Runner.cancel oid' s') !! oid'
           = Some (Runner.set_state Cancelled o')
        /\ Runner.trace (Runner.cancel oid' s') = (Runner.trace s' ++ [Runner.EvCancel oid'])%list
        /\ Runner.feed_body oid' (Runner.cancel oid' s')
           = Some (Runner.Break, Runner.unsubscribe oid' (Runner.cancel oid' s'))).
Proof.
  intros H Hout.
  apply RunnerFacts.wait_for_cases in H
    as [(s1 & o & r & Hq & Ho & Hf & -> & ->) | (s1 & o & tmo & _ & _ & _ & ->)];
    [| exfalso; eapply Hout; reflexivity].
  destruct Hq as (Htr & _ & Hown & _ & Hothers & _).
  split; [| split; [| split]].
  - exists o, r. by rewrite RunnerFacts.shutdown_observers.
  - apply RunnerFacts.shutdown_flag.
  - rewrite RunnerFacts.shutdown_trace, Htr. unfold Runner.shutdown_calls. by rewrite Hown.
  - intros oid' o' Hne Ho' Hst.
    assert (Runner.observers (Runner.shutdown s1) !! oid' = Some o') as Hl.
    { by rewrite RunnerFacts.shutdown_observers, Hothers. }
    assert (Runner.observers (Runner.cancel oid' (Runner.shutdown s1)) !! oid'
            = Some (Runner.set_state Cancelled o')) as Hc.
    { unfold Runner.cancel, Runner.log, Runner.update_observer. simpl.
      rewrite lookup_alter_eq, Hl. simpl. by rewrite Hst. }
    split; [done |]. split; [| split; [done | split; [done |]]].
    + unfold Runner.feed_body. rewrite Hl. simpl. unfold Runner.done. rewrite Hst.
      by rewrite RunnerFacts.shutdown_flag.
    + unfold Runner.feed_body. rewrite Hc. reflexivity.
Qed.

Lemma wait_for_completion_shuts_runner_down_witness :
  let s := Runner.System 0 false true true
             {[1%nat := Runner.Observer 10 (Some "ls -l") Pending true None;
               2%nat := Runner.Observer 20 None Pending true None]} [] in
  exists s', Runner.wait_for 1 None Runner.finishes_after_two s
             = Some (Runner.Returned (VStr "listing"), s')
             /\ Runner.feed_body 2 s' = Some (Runner.Continue, Runner.cancel 2 s').
Proof.
  intros s.
  destruct (Runner.wait_for 1 None Runner.finishes_after_two s) as [[out s'] |] eqn:E;
    [| vm_compute in E; discriminate E].
  assert (out = Runner.Returned (VStr "listing")) as ->.
  { vm_compute in E. by injection E as <- _. }
  exists s'. split; [reflexivity |].
  refine (proj1 (proj2 (proj2 (proj2 (proj2 (wait_for_completion_shuts_runner_down
            1 None Runner.finishes_after_two s s' _ E _))) 2%nat
            (Runner.Observer 20 None Pending true None) _ _ _))).
  - discriminate.
  - discriminate.
  - reflexivity.
  - reflexivity.
Defined.

(** C3, on one run: the case in which the code departs from it.  An explicit
    timeout of zero is treated as no explicit timeout: the wait follows the
    observer's timeout field, so it goes on for two seconds until the
    future has a result, and it ends early when the caller lowers the
    field meanwhile; with any script it is the wait without a timeout
    argument.  An explicit half second, by contrast, times out after the
    first wait although the observer's own timeout is ten seconds. *)
Theorem explicit_zero_timeout_follows_observer :
  fst <$> Runner.wait_for 1 (Some 0%Q) Runner.finishes_after_two Runner.one_command
    = Some (Runner.Returned (VStr "listing"))
  /\ fst <$> Runner.wait_for 1 (Some 0%Q) Runner.lowered_meanwhile Runner.one_command
     = Some (Runner.TimedOut (Runner.CommandTimeout (Some (1 # 2)%Q) "await_done" 1%Q))
  /\ (forall script,
        Runner.wait_for 1 (Some 0%Q) script Runner.one_command
        = Runner.wait_for 1 None script Runner.one_command)
  /\ fst <$> Runner.wait_for 1 (Some (1 # 2)%Q) Runner.finishes_after_two Runner.one_command
     = Some (Runner.TimedOut (Runner.CommandTimeout (Some (1 # 2)%Q) "await_done" 1%Q)).
Proof.
  split; [vm_compute; reflexivity |]. split; [vm_compute; reflexivity |]. split.
  - intros script.
    by apply (RunnerPaths.zero_is_no_timeout 1 0%Q script Runner.one_command
                (Runner.Observer 10 (Some "ls -l") Pending true None)).
  - vm_compute. reflexivity.
Qed.

(** X3.  An explicit timeout of zero is not told apart from a missing one:
    for an observer whose own timeout is positive, [wait_for] with
    [timeout=0] is, on every run, [wait_for] without the argument. *)
Theorem zero_timeout_means_no_timeout
    (oid : nat) (z : Q) (script : list Runner.tick) (s : Runner.system) (o : Runner.observer) :
  Runner.observers s !! oid = Some o -> Qnum z = 0 ->
  Runner.positive (Runner.timeout o) = true ->
  Runner.wait_for oid (Some z) script s = Runner.wait_for oid None script s.
Proof. apply RunnerPaths.zero_is_no_timeout. Qed.

Lemma zero_timeout_means_no_timeout_witness :
  Runner.wait_for 1 (Some 0%Q) Runner.lowered_meanwhile Runner.one_command
  = Runner.wait_for 1 None Runner.lowered_meanwhile Runner.one_command.
Proof.
  apply (zero_timeout_means_no_timeout 1 0%Q Runner.lowered_meanwhile Runner.one_command
           (Runner.Observer 10 (Some "ls -l") Pending true None));
    reflexivity.
Defined.

(** ** An explicit timeout is a fixed deadline *)

Module RunnerFixed.
Import Runner.

Lemma alter_alter (f g : observer -> observer) oid (m : gmap nat observer) :
  alter f oid (alter g oid m) = alter (f ∘ g) oid m.
Proof.
  apply map_eq. intros k. destruct (decide (oid = k)) as [-> | Hne].
  - rewrite !lookup_alter_eq. by destruct (m !! k).
  - by rewrite !lookup_alter_ne.
Qed.

Ltac same_observers :=
  rewrite ?alter_alter; apply alter_ext; intros [t c st b f] _; simpl;
  repeat case_match; simplify_eq; reflexivity.

Lemma forget_blocked oid tk s :
  forget oid (blocked_in_wait oid tk s) = blocked_in_wait oid (erase tk) (forget oid s).
Proof.
  unfold forget, blocked_in_wait, erase, update_observer, set_observers, set_clock. simpl.
  destruct (new_timeout tk) as [q |], (finishes tk) as [r |]; simpl; f_equal; same_observers.
Qed.

Lemma forget_shutdown oid s : forget oid (shutdown s) = shutdown (forget oid s).
Proof.
  destruct s as [c sd own er obs tr].
  unfold forget, shutdown, update_observer, set_observers. simpl.
  by destruct own.
Qed.

Lemma forget_update oid e (f : observer -> observer) s :
  (forall o, set_timeout 0 (f o) = f (set_timeout 0 o)) ->
  forget oid (log e (update_observer oid f s)) = log e (update_observer oid f (forget oid s)).
Proof.
  intros Hf. unfold forget, log, update_observer, set_observers. simpl. f_equal.
  rewrite !alter_alter. apply alter_ext. intros o _. apply Hf.
Qed.

Lemma forget_timeout_path oid s :
  forget oid (on_timeout oid (shutdown (future_cancel oid (cancel oid (unsubscribe oid s)))))
  = on_timeout oid (shutdown (future_cancel oid (cancel oid (unsubscribe oid (forget oid s))))).
Proof.
  unfold on_timeout. rewrite forget_update by (intros [t c [] b f]; reflexivity).
  rewrite forget_shutdown. do 2 f_equal.
  unfold future_cancel.
  assert (forall x, forget oid (log (EvFutureCancel oid) x) = log (EvFutureCancel oid) (forget oid x))
    as -> by reflexivity.
  f_equal. unfold cancel. rewrite forget_update by (intros [t c [] b f]; reflexivity).
  f_equal. f_equal. unfold unsubscribe.
  by rewrite forget_update by (intros [t c st b f]; reflexivity).
Qed.

Lemma forget_lookup oid s1 s2 :
  forget oid s1 = forget oid s2 ->
  clock s1 = clock s2
  /\ match observers s1 !! oid, observers s2 !! oid with
     | Some o1, Some o2 =>
         future o1 = future o2 /\ command_string o1 = command_string o2
     | None, None => True
     | _, _ => False
     end.
Proof.
  intros H. split; [exact (f_equal clock H) |].
  pose proof (f_equal (fun s => observers s !! oid) H) as Ho. simpl in Ho.
  rewrite !lookup_alter_eq in Ho.
  destruct (observers s1 !! oid) as [[]|], (observers s2 !! oid) as [[]|]; simpl in Ho;
    try done. by injection Ho as -> -> -> ->.
Qed.

(** The loop with an explicit deadline does not look at the observer's
    timeout. *)
Lemma wait_loop_fixed oid t start sc1 : forall sc2 s1 s2 rem,
  forget oid s1 = forget oid s2 -> erase <$> sc1 = erase <$> sc2 ->
  (fun rs : (wait_outcome + option Q) * system => (rs.1, forget oid rs.2))
    <$> wait_loop oid false (Some t) start rem sc1 s1
  = (fun rs : (wait_outcome + option Q) * system => (rs.1, forget oid rs.2))
    <$> wait_loop oid false (Some t) start rem sc2 s2.
Proof.
  induction sc1 as [| tk1 sc1 IH]; intros [| tk2 sc2] s1 s2 rem Hs Hsc;
    try (by apply (f_equal length) in Hsc).
  { cbn [wait_loop]. destruct (positive rem); simpl; [done | by rewrite Hs]. }
  rewrite !fmap_cons in Hsc.
  assert (erase tk1 = erase tk2) as Htk by congruence.
  assert (erase <$> sc1 = erase <$> sc2) as Hsc' by congruence.
  cbn [wait_loop]. destruct (positive rem); [| simpl; by rewrite Hs].
  assert (forget oid (blocked_in_wait oid tk1 s1) = forget oid (blocked_in_wait oid tk2 s2))
    as Hb by (by rewrite !forget_blocked, Hs, Htk).
  destruct (forget_lookup oid _ _ Hb) as [Hc Ho].
  destruct (observers (blocked_in_wait oid tk1 s1) !! oid) as [o1 |],
    (observers (blocked_in_wait oid tk2 s2) !! oid) as [o2 |]; try done.
  destruct Ho as [Hf _]. cbn [mbind option_bind]. rewrite Hf.
  destruct (future o2) as [r |].
  - simpl. by rewrite !forget_shutdown, Hb.
  - rewrite Hc. by apply IH.
Qed.

Lemma wait_for_fixed oid t sc1 sc2 s1 s2 :
  timeout_is_true (Some t) = true ->
  forget oid s1 = forget oid s2 -> erase <$> sc1 = erase <$> sc2 ->
  apart_from_timeout oid (wait_for oid (Some t) sc1 s1)
  = apart_from_timeout oid (wait_for oid (Some t) sc2 s2).
Proof.
  intros Ht Hs Hsc. destruct (forget_lookup oid _ _ Hs) as [Hc Ho].
  unfold apart_from_timeout, wait_for.
  destruct (observers s1 !! oid) as [o1 |] eqn:E1, (observers s2 !! oid) as [o2 |] eqn:E2;
    try done.
  cbn [mbind option_bind]. rewrite Ht, Hc.
  pose proof (wait_loop_fixed oid t (clock s2) sc1 sc2 s1 s2 t Hs Hsc) as Hl.
  destruct (wait_loop oid false (Some t) (clock s2) t sc1 s1) as [[[out1 | tmo1] s1'] |],
    (wait_loop oid false (Some t) (clock s2) t sc2 s2) as [[[out2 | tmo2] s2'] |];
    simpl in Hl; try discriminate Hl; try (exfalso; congruence); [| | done].
  - assert (out1 = out2) as -> by congruence.
    assert (forget oid s1' = forget oid s2') as Hs' by congruence.
    simpl. by rewrite Hs'.
  - assert (tmo1 = tmo2) as -> by congruence.
    assert (forget oid s1' = forget oid s2') as Hs' by congruence.
    cbn [mbind option_bind].
    set (p1 := on_timeout oid (shutdown (future_cancel oid (cancel oid (unsubscribe oid s1'))))).
    set (p2 := on_timeout oid (shutdown (future_cancel oid (cancel oid (unsubscribe oid s2'))))).
    assert (forget oid p1 = forget oid p2) as Hp.
    { subst p1 p2. by rewrite !forget_timeout_path, Hs'. }
    destruct (forget_lookup oid _ _ Hp) as [_ Hpo].
    destruct (forget_lookup oid _ _ Hs') as [Hc' _].
    destruct (observers p1 !! oid) as [q1 |], (observers p2 !! oid) as [q2 |]; try done.
    destruct Hpo as [_ Hcs]. cbn [mbind option_bind]. rewrite Hcs.
    change (clock (unsubscribe oid s1')) with (clock s1').
    change (clock (unsubscribe oid s2')) with (clock s2'). rewrite Hc'.
    destruct (command_string q2); simpl; by rewrite Hp.
Qed.

End RunnerFixed.

(** X4.  With an explicit timeout other than zero the deadline is fixed when
    [wait_for] starts: runs that differ only in what the observer's timeout
    field is and in what the caller assigns to it during the wait have the
    same outcome (the same result or timeout error, with the same timeout
    and elapsed time) and leave the same system, the value of that field
    apart. *)
Theorem explicit_timeout_is_fixed
    (oid : nat) (t : Q) (script1 script2 : list Runner.tick) (s1 s2 : Runner.system) :
  Runner.timeout_is_true (Some t) = true ->
  Runner.forget oid s1 = Runner.forget oid s2 ->
  Runner.erase <$> script1 = Runner.erase <$> script2 ->
  Runner.apart_from_timeout oid (Runner.wait_for oid (Some t) script1 s1)
  = Runner.apart_from_timeout oid (Runner.wait_for oid (Some t) script2 s2).
Proof. apply RunnerFixed.wait_for_fixed. Qed.

Lemma explicit_timeout_is_fixed_witness :
  Runner.apart_from_timeout 1
    (Runner.wait_for 1 (Some 3%Q) Runner.finishes_after_two Runner.one_command)
  = Runner.apart_from_timeout 1
      (Runner.wait_for 1 (Some 3%Q) Runner.lowered_meanwhile Runner.one_command).
Proof.
  apply (explicit_timeout_is_fixed 1 3%Q Runner.finishes_after_two Runner.lowered_meanwhile
           Runner.one_command Runner.one_command); reflexivity.
Defined.

(** ** The feed loop *)

Module RunnerFeed.
Import Runner.

Lemma feed_loop_unfold oid naps s :
  feed_loop oid naps s
  = match feed_body oid s with
    | Some (Break, s1) => Some s1
    | Some (Continue, s1) =>
        match naps with
        | [] => None
        | n :: naps' => feed_loop oid naps' (asleep oid n s1)
        end
    | None => None
    end.
Proof. destruct naps; simpl; destruct (feed_body oid s) as [[[] ?] |]; reflexivity. Qed.

Lemma asleep_trace oid n s : exists more, trace (asleep oid n s) = (trace s ++ more)%list.
Proof.
  unfold asleep.
  set (s1 := match settles n with Some _ => _ | None => s end).
  assert (trace s1 = trace s) as Ht by (subst s1; by destruct (settles n)).
  destruct (shuts_down n).
  - exists (shutdown_calls s1). by rewrite RunnerFacts.shutdown_trace, Ht.
  - exists []. by rewrite app_nil_r.
Qed.



(** Whenever the loop ends, the observer is done and was unsubscribed by
    the last call. *)
Lemma feed_loop_ends oid naps : forall s s',
  feed_loop oid naps s = Some s' ->
  exists o' mid, observers s' !! oid = Some o' /\ done o' = true /\ subscribed o' = false
                 /\ trace s' = (trace s ++ mid ++ [EvUnsubscribe oid])%list.
Proof.
  induction naps as [| n naps IH]; intros s s'; rewrite feed_loop_unfold;
    unfold feed_body; destruct (observers s !! oid) as [o |] eqn:Ho; simpl; try done;
    destruct (done o) eqn:Hd.
  - intros [= <-]. exists (set_subscribed false o), [].
    unfold unsubscribe, log, update_observer. simpl.
    rewrite lookup_alter_eq, Ho. by destruct o.
  - by destruct (_in_shutdown s).
  - intros [= <-]. exists (set_subscribed false o), [].
    unfold unsubscribe, log, update_observer. simpl.
    rewrite lookup_alter_eq, Ho. by destruct o.
  - set (s1 := if _in_shutdown s then cancel oid s else s).
    assert (exists c, trace s1 = (trace s ++ c)%list) as [c Hc].
    { subst s1. destruct (_in_shutdown s); [by exists [EvCancel oid] | exists []; by rewrite app_nil_r]. }
    assert ((if _in_shutdown s then Some (Continue, cancel oid s) else Some (Continue, s))
            = Some (Continue, s1)) as -> by (subst s1; by destruct (_in_shutdown s)).
    destruct (asleep_trace oid n s1) as [more Hm].
    intros (o' & mid & Ho' & Hd' & Hs' & Ht)%IH.
    exists o', (c ++ more ++ mid)%list. repeat split; try done.
    rewrite Ht, Hm, Hc. by rewrite <- !app_assoc.
Qed.


End RunnerFeed.



(** X6.  [feed] subscribes the observer before anything else, and whenever
    it returns the observer is done and was unsubscribed by the last call
    made: no run of [feed] returns with the observer pending or still
    subscribed. *)
Theorem feed_returns_unsubscribed
    (oid : nat) (naps : list Runner.nap) (s s' : Runner.system) :
  Runner.feed oid naps s = Some s' ->
  exists o' mid,
    Runner.observers s' !! oid = Some o'
    /\ Runner.done o' = true /\ Runner.subscribed o' = false
    /\ Runner.trace s'
       = (Runner.trace s ++ [Runner.EvSubscribe oid] ++ mid ++ [Runner.EvUnsubscribe oid])%list.
Proof.
  unfold Runner.feed. intros (o' & mid & Ho & Hd & Hs & Ht)%RunnerFeed.feed_loop_ends.
  exists o', mid. repeat split; try done.
  rewrite Ht. unfold Runner.subscribe, Runner.log, Runner.update_observer. simpl.
  by rewrite <- !app_assoc.
Qed.

Lemma feed_returns_unsubscribed_witness :
  exists s' o', Runner.feed 7 [Runner.Nap None false] RunnerLive.shutting_down = Some s'
                /\ Runner.observers s' !! 7%nat = Some o'
                /\ Runner.done o' = true /\ Runner.subscribed o' = false.
Proof.
  destruct (Runner.feed 7 [Runner.Nap None false] RunnerLive.shutting_down) as [s' |] eqn:E;
    [| vm_compute in E; discriminate E].
  destruct (feed_returns_unsubscribed 7 _ _ s' E) as (o' & mid & Ho & Hd & Hs & _).
  by exists s', o'.
Defined.

(** ** Waiting on the observer's own timeout *)

Module RunnerAhead.
Import Runner RunnerLive.

Lemma run_ahead_quiet oid start ticks : forall s s1,
  run_ahead oid start ticks s = Some s1 -> quiet oid s s1.
Proof.
  induction ticks as [| tk ticks IH]; intros s s1; simpl.
  - intros [= <-]. apply RunnerFacts.quiet_refl.
  - destruct (observers (blocked_in_wait oid tk s) !! oid) as [o |]; [| done]. simpl.
    destruct (future o); [done |].
    destruct (positive _); [| done].
    intros H%IH. eapply RunnerFacts.quiet_trans; [apply RunnerFacts.quiet_blocked | done].
Qed.

Lemma run_ahead_pending oid start ticks : forall s s1 o,
  run_ahead oid start ticks s = Some s1 ->
  observers s !! oid = Some o -> future o = None ->
  exists o1, observers s1 !! oid = Some o1 /\ future o1 = None.
Proof.
  induction ticks as [| tk ticks IH]; intros s s1 o; simpl.
  - intros [= <-] Ho Hf. by exists o.
  - destruct (observers (blocked_in_wait oid tk s) !! oid) as [o' |] eqn:Eo; [| done]. simpl.
    destruct (future o') eqn:Ef; [done |].
    destruct (positive _); [| done].
    intros H _ _. by apply (IH (blocked_in_wait oid tk s) s1 o').
Qed.

(** While the observer's timeout stays ahead, the loop goes round. *)
Lemma loop_ahead oid start rest ticks : forall tmo rem s s1,
  positive rem = true -> run_ahead oid start ticks s = Some s1 ->
  exists tmo1 rem1,
    positive rem1 = true
    /\ wait_loop oid true tmo start rem (ticks ++ rest) s
       = wait_loop oid true tmo1 start rem1 rest s1.
Proof.
  induction ticks as [| tk ticks IH]; intros tmo rem s s1 Hp; simpl.
  - intros [= <-]. by exists tmo, rem.
  - rewrite Hp.
    destruct (observers (blocked_in_wait oid tk s) !! oid) as [o |]; [| done]. simpl.
    destruct (future o); [done |].
    destruct (positive (timeout o - _)) eqn:Hp'; [| done].
    intros H. by apply IH.
Qed.

Lemma finishing_tick oid tk s o r :
  observers s !! oid = Some o -> future o = None -> finishes tk = Some r ->
  exists o', observers (blocked_in_wait oid tk s) !! oid = Some o' /\ future o' = Some r.
Proof.
  intros Ho Hf Hr. unfold blocked_in_wait. rewrite Hr.
  unfold update_observer. simpl. rewrite lookup_alter_eq.
  destruct (new_timeout tk); simpl; rewrite ?lookup_alter_eq, Ho; simpl; rewrite Hf;
    eexists; split; reflexivity.
Qed.

Lemma timeout_path_command oid s1 o1 :
  observers s1 !! oid = Some o1 ->
  exists o', observers (on_timeout oid (shutdown (future_cancel oid
                          (cancel oid (unsubscribe oid s1))))) !! oid = Some o'
             /\ command_string o' = command_string o1.
Proof.
  intros Ho. unfold on_timeout, log, update_observer. simpl.
  rewrite RunnerFacts.shutdown_observers. unfold future_cancel, cancel, unsubscribe,
    log, update_observer. simpl.
  rewrite !lookup_alter_eq, Ho. simpl. eexists. split; [reflexivity |].
  by destruct o1 as [? ? [] ? ?].
Qed.

End RunnerAhead.

(** X7.  Called without a timeout, [wait_for] follows the observer's
    timeout as it is after each wait, not as it was at the call: as long
    as after every wait the timeout then set exceeds the time passed since
    the start, the loop goes on, also beyond the timeout the observer had
    at the call.  A wait after which the future has a result then returns
    that result (or raises its exception); a wait after which the timeout
    then set no longer exceeds the time passed raises the timeout error,
    which carries that last value and the time passed. *)
Theorem observer_timeout_is_followed_live
    (oid : nat) (ticks : list Runner.tick) (s s1 : Runner.system) (o : Runner.observer) :
  Runner.observers s !! oid = Some o ->
  Runner.future o = None ->
  Runner.positive (Runner.timeout o) = true ->
  RunnerLive.run_ahead oid (Runner.clock s) ticks s = Some s1 ->
  (forall last rest r,
     Runner.finishes last = Some r ->
     Runner.wait_for oid None (ticks ++ last :: rest) s
     = Some (Runner.of_future r, Runner.shutdown (Runner.blocked_in_wait oid last s1)))
  /\ (forall tk rest o2,
        Runner.observers (Runner.blocked_in_wait oid tk s1) !! oid = Some o2 ->
        Runner.future o2 = None ->
        Runner.positive (Runner.timeout o2
                         - (Runner.clock (Runner.blocked_in_wait oid tk s1) - Runner.clock s))%Q
          = false ->
        exists s',
          Runner.wait_for oid None (ticks ++ tk :: rest) s
          = Some (Runner.TimedOut
                    (match Runner.command_string o with
                     | Some _ => Runner.CommandTimeout (Some (Runner.timeout o2)) "await_done"
                                   (Runner.clock (Runner.blocked_in_wait oid tk s1)
                                    - Runner.clock s)
                     | None => Runner.ConnectionObserverTimeout (Some (Runner.timeout o2))
                                 "await_done"
                                 (Runner.clock (Runner.blocked_in_wait oid tk s1)
                                  - Runner.clock s)
                     end), s')).
Proof.
  intros Ho Hf Hp Hrun. split.
  - intros last rest r Hr.
    destruct (RunnerAhead.run_ahead_pending _ _ _ _ _ _ Hrun Ho Hf) as (o1 & Ho1 & Hf1).
    destruct (RunnerAhead.finishing_tick oid last s1 o1 r Ho1 Hf1 Hr) as (o' & Ho' & Hf').
    destruct (RunnerAhead.loop_ahead oid (Runner.clock s) (last :: rest) ticks None
                (Runner.timeout o) s s1 Hp Hrun) as (tmo1 & rem1 & Hp1 & Hl).
    unfold Runner.wait_for. rewrite Ho. cbn [mbind option_bind]. rewrite Hl.
    cbn [Runner.wait_loop]. rewrite Hp1, Ho'. cbn [mbind option_bind]. rewrite Hf'.
    by destruct r.
  - intros tk rest o2 Ho2 Hf2 Hexp.
    destruct (RunnerAhead.loop_ahead oid (Runner.clock s) (tk :: rest) ticks None
                (Runner.timeout o) s s1 Hp Hrun) as (tmo1 & rem1 & Hp1 & Hl).
    pose proof (RunnerAhead.run_ahead_quiet _ _ _ _ _ Hrun) as Hq.
    pose proof (RunnerFacts.quiet_trans _ _ _ _ Hq (RunnerFacts.quiet_blocked oid tk s1))
      as (_ & _ & _ & _ & _ & Hm).
    rewrite Ho, Ho2 in Hm. destruct Hm as (Hcs & _ & _).
    destruct (RunnerAhead.timeout_path_command oid _ o2 Ho2) as (o' & Ho' & Hcs').
    unfold Runner.wait_for. rewrite Ho. cbn [mbind option_bind]. rewrite Hl.
    cbn [Runner.wait_loop]. rewrite Hp1, Ho2. cbn [mbind option_bind]. rewrite Hf2.
    rewrite RunnerPaths.wait_loop_stop by done.
    cbn [mbind option_bind]. rewrite Ho'. cbn [mbind option_bind].
    rewrite Hcs', Hcs. eexists. destruct (Runner.command_string o); reflexivity.
Qed.

Lemma observer_timeout_is_followed_live_witness :
  Runner.positive (1 - (5 # 2))%Q = false
  /\ exists s',
       Runner.wait_for 1 None
         (RunnerLive.raised_in_time
            ++ [Runner.Tick 1 None (Some (Runner.FutValue (VStr "listing")))])
         RunnerLive.short_command
       = Some (Runner.Returned (VStr "listing"), s').
Proof.
  split; [reflexivity |].
  destruct (RunnerLive.run_ahead 1 0 RunnerLive.raised_in_time RunnerLive.short_command)
    as [s1 |] eqn:E; [| vm_compute in E; discriminate E].
  eexists.
  exact (proj1 (observer_timeout_is_followed_live 1 RunnerLive.raised_in_time
                  RunnerLive.short_command s1 _ eq_refl eq_refl eq_refl E)
           (Runner.Tick 1 None (Some (Runner.FutValue (VStr "listing")))) [] _ eq_refl).
Defined.

(** ** RegexHelper: the last match, and the helper of the class *)

Module RegexHelperCache.
Import RegexHelper RegexHelperClass.




Lemma get_regex_helper_made w r :
  instance w = Some r -> get_regex_helper w = Ok (Some r) w.
Proof.
  intros H. unfold get_regex_helper, gets. rewrite bind_unfold. cbn beta iota.
  rewrite H, bind_unfold. cbn. by rewrite H.
Qed.

Lemma getattr_stored d v :
  getattr "match" (Build (<["match" := v]> d)) = Ok v (Build (<["match" := v]> d)).
Proof.
  unfold getattr, gets. rewrite bind_unfold. cbn beta iota. unfold id.
  cbn [inst_dict]. by rewrite lookup_insert_eq.
Qed.

Lemma search_compiled_stores h p s :
  search_compiled p s h
  = Ok (of_match (re_search p s)) (Build (<["match" := of_match (re_search p s)]> (inst_dict h))).
Proof.
  unfold search_compiled. rewrite bind_unfold. unfold setattr, modify.
  apply getattr_stored.
Qed.

End RegexHelperCache.



(** X9.  [get_regex_helper] hands out one helper for the whole program:
    the first call makes it, without touching the helpers that exist, and
    every call returns that same object and never [None].  What one
    holder of it looks up is therefore what every other holder reads:
    after a lookup through one reference, [get_match] through another
    reference obtained from [get_regex_helper] returns that lookup's
    result. *)
Theorem get_regex_helper_is_shared (w : RegexHelperClass.world) :
  RegexHelperClass.sound w ->
  exists r w1,
    RegexHelperClass.get_regex_helper w = Ok (Some r) w1
    /\ RegexHelperClass.get_regex_helper w1 = Ok (Some r) w1
    /\ RegexHelperClass.sound w1
    /\ (forall r' h, RegexHelperClass.heap w !! r' = Some h ->
                     RegexHelperClass.heap w1 !! r' = Some h)
    /\ forall p s,
         exists w2,
           (a ← RegexHelperClass.get_regex_helper;
            b ← RegexHelperClass.get_regex_helper;
            RegexHelperClass.on_handed a (RegexHelper.search_compiled p s);;
            RegexHelperClass.on_handed b RegexHelper.get_match) w
           = Ok (RegexHelper.of_match (re_search p s)) w2.
Proof.
  intros Hs.
  assert (exists r w1, RegexHelperClass.get_regex_helper w = Ok (Some r) w1
                       /\ RegexHelperClass.instance w1 = Some r
                       /\ is_Some (RegexHelperClass.heap w1 !! r)
                       /\ (forall r' h, RegexHelperClass.heap w !! r' = Some h ->
                                        RegexHelperClass.heap w1 !! r' = Some h))
    as (r & w1 & Hg & Hi & Hh & Hk).
  { unfold RegexHelperClass.sound in Hs.
    destruct (RegexHelperClass.instance w) as [r |] eqn:E.
    - exists r, w. by rewrite (RegexHelperCache.get_regex_helper_made w r E).
    - eexists _, _. split; [| split; [| split]].
      + unfold RegexHelperClass.get_regex_helper, gets. rewrite bind_unfold.
        cbn beta iota. rewrite E. reflexivity.
      + reflexivity.
      + simpl. rewrite lookup_insert_eq. by eexists.
      + intros r' h Hr'. simpl. rewrite lookup_insert_ne; [done |].
        intros <-. apply (is_fresh (dom (RegexHelperClass.heap w))).
        by apply elem_of_dom. }
  pose proof (RegexHelperCache.get_regex_helper_made w1 r Hi) as Hg1.
  exists r, w1. repeat split; try done.
  { unfold RegexHelperClass.sound. by rewrite Hi. }
  intros p s. destruct Hh as [h Hh].
  eexists. rewrite bind_unfold, Hg, bind_unfold, Hg1, bind_unfold.
  unfold RegexHelperClass.on_handed, RegexHelperClass.on. rewrite Hh.
  rewrite RegexHelperCache.search_compiled_stores. cbn [RegexHelperClass.heap].
  rewrite lookup_insert_eq. unfold RegexHelper.get_match.
  by rewrite RegexHelperCache.getattr_stored.
Qed.

Lemma get_regex_helper_is_shared_witness :
  exists r w1,
    RegexHelperClass.get_regex_helper RegexHelperClass.at_start = Ok (Some r) w1
    /\ RegexHelperClass.get_regex_helper w1 = Ok (Some r) w1.
Proof.
  destruct (get_regex_helper_is_shared RegexHelperClass.at_start I)
    as (r & w1 & H1 & H2 & _).
  by exists r, w1.
Defined.

(** ** The groups of a match *)

Module RegexGroups.

Lemma rsem_keeps r s c s' c' n :
  rsem r s c s' c' -> is_Some (c !! n) -> is_Some (c' !! n).
Proof.
  induction 1 as [ | | r1 r2 s c s1 c1 s2 c2 _ IH1 _ IH2 | | r s c s1 c1 s2 c2 _ IH1 _ IH2
                 | m r s c s' c' _ IH | | ]; intros Hn; auto.
  apply lookup_insert_is_Some'. right. by apply IH.
Qed.

(** A match sets every group that is not under a star. *)
Lemma rsem_sets r s c s' c' n :
  rsem r s c s' c' -> n ∈ must_groups r -> is_Some (c' !! n).
Proof.
  induction 1 as [ | | r1 r2 s c s1 c1 s2 c2 _ IH1 H2 IH2 | | r s c s1 c1 s2 c2 _ IH1 _ IH2
                 | m r s c s' c' _ IH | | ]; simpl; intros Hn;
    try (by apply elem_of_nil in Hn).
  - apply elem_of_app in Hn as [Hn | Hn]; [| by apply IH2].
    eapply rsem_keeps; [exact H2 | by apply IH1].
  - apply lookup_insert_is_Some'. apply elem_of_cons in Hn as [-> | Hn]; [by left |].
    right. by apply IH.
Qed.

Lemma take_consumed (pre s' : list ascii) :
  take (length (pre ++ s') - length s') (pre ++ s') = pre.
Proof.
  rewrite length_app. replace (length pre + length s' - length s')%nat with (length pre) by lia.
  apply take_app_length.
Qed.

(** A group holds a text that its pattern can consume. *)
Lemma rsem_group_holds n P r s c s' c' :
  rsem r s c s' c' ->
  Forall (consumes_only P) (group_body n r) ->
  group_holds n P c -> group_holds n P c'.
Proof.
  induction 1 as [ | | r1 r2 s c s1 c1 s2 c2 _ IH1 _ IH2 | | r s c s1 c1 s2 c2 _ IH1 _ IH2
                 | m r s c s' c' Hr IH | | ]; simpl; intros Hb Hc; auto.
  - apply Forall_app in Hb as [Hb1 Hb2]. auto.
  - destruct (Nat.eqb_spec m n) as [-> | Hne].
    + apply Forall_cons in Hb as [Hb0 Hb]. intros g. rewrite lookup_insert_eq.
      intros [= <-]. destruct (RegexFacts.rsem_suffix _ _ _ _ _ Hr) as [pre ->].
      exists pre. split; [by rewrite take_consumed |].
      by apply (Hb0 _ _ _ _ pre Hr).
    + intros g. rewrite lookup_insert_ne by done. apply IH; auto.
Qed.

(** A run of characters of one class. *)
Lemma class_run p s c s' c' :
  rsem (Star (Cls p)) s c s' c' ->
  exists mid, s = (mid ++ s')%list /\ forallb p mid = true.
Proof.
  intros H. remember (Star (Cls p)) as r eqn:Er.
  induction H as [ | | | r s c | r s c s1 c1 s2 c2 H1 _ _ IH2 | | | ]; try discriminate Er.
  - by exists [].
  - injection Er as ->. destruct (IH2 eq_refl) as (mid & -> & Hmid).
    inversion H1 as [ | p0 a s0 c0 Ha | | | | | | ]; subst.
    exists (a :: mid). split; [done |]. simpl. by rewrite Ha, Hmid.
Qed.

Lemma class_plus p : consumes_only (fun pre => pre <> [] /\ forallb p pre = true) (Plus (Cls p)).
Proof.
  intros s c s' c' pre H. unfold Plus in H.
  inversion H as [ | | r1 r2 s0 c0 s1 c1 s2 c2 Hc Hr | | | | | ]; subst.
  inversion Hc as [ | p0 a s0 c0 Ha | | | | | | ]; subst.
  apply class_run in Hr as (mid & -> & Hmid). intros Hs.
  change (a :: mid ++ s')%list with ((a :: mid) ++ s')%list in Hs.
  apply app_inv_tail in Hs as <-. split; [done |]. simpl. by rewrite Ha, Hmid.
Qed.

Lemma int_of_digits pre :
  pre <> [] -> forallb is_digit pre = true -> int_of_str (text pre) = Some (digits_val pre).
Proof.
  intros Hne Hd. unfold int_of_str, chars, text.
  rewrite list_ascii_of_string_of_list_ascii.
  destruct pre as [| a pre]; [done |]. by rewrite Hd.
Qed.

(** What [re_search] finds is a match of the pattern, as group 0. *)
Lemma search_sound r line m :
  re_search r line = Some m -> exists s0 s', rsem (Grp 0 r) s0 ∅ s' (groups m).
Proof.
  unfold re_search. destruct (search_from r (chars line)) as [c |] eqn:E; [| done].
  intros [= <-]. by apply RegexFacts.search_from_sound in E.
Qed.

End RegexGroups.

(** ** What each parse handler leaves *)

Module LsExact.
Import Ls LsEffect.

Lemma helper_group_at s m n :
  RegexHelper.inst_dict (_regex_helper s) !! "match" = Some (RegexHelper.PMatch m) ->
  is_Some (groups m !! n) ->
  helper (RegexHelper.group n) s = Ok (grp m n) s.
Proof.
  destruct s as [p [d] cr o st]. simpl. intros Hm [g Hg].
  unfold grp. rewrite Hg. simpl.
  unfold helper, zoom, RegexHelper.group, RegexHelper.getattr, gets.
  rewrite bind_unfold. simpl. rewrite bind_unfold. simpl. rewrite Hm. simpl.
  unfold match_group. rewrite Hg. reflexivity.
Qed.

Lemma store_new_entry s fs f :
  current_ret s !! "files" = Some (VDict fs) ->
  store ["files"] f (VDict ∅) s = Ok tt (with_entry f ∅ fs (current_ret s) s).
Proof.
  intros Hf. unfold store, gets. rewrite bind_unfold. cbn beta iota.
  unfold setitem_at, getitem, setitem. rewrite !bind_unfold. rewrite Hf. reflexivity.
Qed.

Lemma store_entry_field s fs f e k x :
  current_ret s !! "files" = Some (VDict fs) -> fs !! f = Some (VDict e) ->
  store ["files"; f] k x s
  = Ok tt (set_current_ret (<["files" := VDict (<[f := VDict (<[k := x]> e)]> fs)]>
                              (current_ret s)) s).
Proof.
  intros Hf He. unfold store, gets. rewrite bind_unfold. cbn beta iota.
  unfold setitem_at, getitem, setitem. rewrite !bind_unfold. rewrite Hf.
  cbn. rewrite He. reflexivity.
Qed.

(** A store into the entry just made. *)
Lemma with_entry_store f e fs cr s k x :
  store ["files"; f] k x (with_entry f e fs cr s)
  = Ok tt (with_entry f (<[k := x]> e) fs cr s).
Proof.
  unfold with_entry.
  rewrite (store_entry_field _ (<[f := VDict e]> fs) f e k x);
    [| apply lookup_insert_eq | apply lookup_insert_eq].
  cbn [current_ret set_current_ret]. f_equal.
  unfold set_current_ret. cbn. by rewrite !insert_insert_eq.
Qed.

Lemma with_entry_group f e fs cr s m n :
  RegexHelper.inst_dict (_regex_helper s) !! "match" = Some (RegexHelper.PMatch m) ->
  is_Some (groups m !! n) ->
  helper (RegexHelper.group n) (with_entry f e fs cr s) = Ok (grp m n) (with_entry f e fs cr s).
Proof. intros Hm Hg. by apply helper_group_at. Qed.

Lemma int_at g n (s : t) : int_of_str g = Some n -> int g s = Ok n s.
Proof. intros H. unfold int. by rewrite H. Qed.

Lemma to_bytes_at g (s : t) :
  ConverterHelper.to_bytes g s
  = match ConverterHelper.parse_token g with
    | Some tok => Ok (Qfloor (ConverterHelper.exact_bytes tok), ConverterHelper.number tok,
                      ConverterHelper.unit_index tok) s
    | None => Raise ValueError s
    end.
Proof. unfold ConverterHelper.to_bytes. by destruct (ConverterHelper.parse_token g). Qed.

(** [_add_new_file_long] on a match that has the groups and whose second
    group is a number. *)
Lemma add_new_file_long_runs islink s m fs n :
  RegexHelper.inst_dict (_regex_helper s) !! "match" = Some (RegexHelper.PMatch m) ->
  current_ret s !! "files" = Some (VDict fs) ->
  (forall k, (1 <= k <= 7)%nat -> is_Some (groups m !! k)) ->
  (islink = true -> is_Some (groups m !! 8%nat)) ->
  int_of_str (grp m 2) = Some n ->
  _add_new_file_long islink s
  = match ConverterHelper.parse_token (grp m 5) with
    | Some _ => Ok tt (with_entry (grp m 7) (long_entry islink m) fs (current_ret s) s)
    | None => Raise ValueError (with_entry (grp m 7) (long_entry islink m) fs (current_ret s) s)
    end.
Proof.
  intros Hm Hf Hg H8 Hn.
  assert (forall k, (1 <= k <= 7)%nat -> forall e,
            helper (RegexHelper.group k) (with_entry (grp m 7) e fs (current_ret s) s)
            = Ok (grp m k) (with_entry (grp m 7) e fs (current_ret s) s)) as Hk.
  { intros k Hk e. apply with_entry_group; [done | by apply Hg]. }
  unfold _add_new_file_long.
  rewrite bind_unfold, (helper_group_at s m 7 Hm) by (apply Hg; lia). cbn beta iota.
  rewrite bind_unfold, (store_new_entry s fs) by done. cbn beta iota.
  rewrite bind_unfold, Hk by lia. cbn beta iota.
  rewrite bind_unfold, with_entry_store. cbn beta iota.
  rewrite bind_unfold, Hk by lia. cbn beta iota.
  rewrite bind_unfold, (int_at _ n) by done. cbn beta iota.
  rewrite bind_unfold, with_entry_store. cbn beta iota.
  rewrite bind_unfold, Hk by lia. cbn beta iota.
  rewrite bind_unfold, with_entry_store. cbn beta iota.
  rewrite bind_unfold, Hk by lia. cbn beta iota.
  rewrite bind_unfold, with_entry_store. cbn beta iota.
  rewrite bind_unfold, Hk by lia. cbn beta iota.
  rewrite bind_unfold, with_entry_store. cbn beta iota.
  rewrite bind_unfold, Hk by lia. cbn beta iota.
  rewrite bind_unfold, to_bytes_at.
  unfold long_entry, first_fields. rewrite Hn. cbn [default].
  destruct (ConverterHelper.parse_token (grp m 5)) as [tok |]; [| reflexivity].
  cbn beta iota. cbn [fst].
  rewrite bind_unfold, with_entry_store. cbn beta iota.
  rewrite bind_unfold, Hk by lia. cbn beta iota.
  rewrite bind_unfold, with_entry_store. cbn beta iota.
  rewrite bind_unfold, Hk by lia. cbn beta iota.
  rewrite bind_unfold, with_entry_store. cbn beta iota.
  destruct islink; [| reflexivity].
  rewrite bind_unfold, (with_entry_group _ _ _ _ _ m 8) by (done || by apply H8).
  cbn beta iota.
  apply with_entry_store.
Qed.

(** Every match of a long pattern has the groups 1 to 7, the second of
    them a number; a match of the pattern for links has group 8 too. *)
Lemma long_groups r line m :
  r = _re_long \/ r = _re_long_links ->
  re_search r line = Some m ->
  (forall k, (1 <= k <= 7)%nat -> is_Some (groups m !! k))
  /\ (r = _re_long_links -> is_Some (groups m !! 8%nat))
  /\ exists n, int_of_str (grp m 2) = Some n.
Proof.
  intros Hr (s0 & s' & H)%RegexGroups.search_sound.
  assert (forall k, (1 <= k <= 7)%nat -> k ∈ must_groups (Grp 0 r)) as Hin.
  { intros k Hk.
    assert (forall l, seq 0 8 ⊆ l -> k ∈ l) as Hsub.
    { intros l Hl. apply Hl, elem_of_seq. lia. }
    destruct Hr as [-> | ->]; apply Hsub; vm_compute.
    - done.
    - intros x Hx. apply list_elem_of_In. apply list_elem_of_In in Hx. simpl in *. tauto. }
  split; [| split].
  - intros k Hk. eapply RegexGroups.rsem_sets; [exact H | by apply Hin].
  - intros ->. eapply RegexGroups.rsem_sets; [exact H |].
    vm_compute. do 8 apply list_elem_of_further. apply list_elem_of_here.
  - assert (group_holds 2 (fun pre => pre <> [] /\ forallb is_digit pre = true) (groups m))
      as Hd.
    { eapply RegexGroups.rsem_group_holds; [exact H | |].
      - assert (group_body 2 (Grp 0 r) = [Plus (Cls is_digit)]) as ->
          by (destruct Hr as [-> | ->]; reflexivity).
        apply Forall_cons. split; [apply RegexGroups.class_plus | apply Forall_nil_2].
      - intros g Hg. by rewrite lookup_empty in Hg. }
    destruct (RegexGroups.rsem_sets _ _ _ _ _ 2%nat H) as [g Hg]; [apply Hin; lia |].
    destruct (Hd g Hg) as (pre & -> & Hne & Hdig).
    exists (digits_val pre). unfold grp. rewrite Hg. by apply RegexGroups.int_of_digits.
Qed.

Lemma total_group line m : re_search _re_total line = Some m -> is_Some (groups m !! 1%nat).
Proof.
  intros (s0 & s' & H)%RegexGroups.search_sound.
  eapply RegexGroups.rsem_sets; [exact H |].
  vm_compute. apply list_elem_of_further, list_elem_of_here.
Qed.

Lemma files_of_files s fs : files s = Some fs -> files_of (current_ret s) = fs.
Proof. unfold files, files_of. destruct (current_ret s !! "files") as [[] |]; congruence. Qed.

(** A long handler on a line in which its pattern is found. *)
Lemma long_handler_exact (islink : bool) line s fs m :
  files s = Some fs ->
  re_search (if islink then _re_long_links else _re_long) line = Some m ->
  (if islink then _parse_long_links else _parse_long_file) line s
  = Raise (ends_with (if islink then 1 else 2) m)
          (left_by (if islink then 1 else 2) m line s).
Proof.
  intros Hf Hm.
  destruct (long_groups _ line m (if islink as b return
                                     ((if b then _re_long_links else _re_long) = _re_long
                                      \/ (if b then _re_long_links else _re_long) = _re_long_links)
                                  then or_intror eq_refl else or_introl eq_refl) Hm)
    as (Hg & H8 & n & Hn).
  assert (_add_new_file_long islink (with_match (RegexHelper.PMatch m) s)
          = match ConverterHelper.parse_token (grp m 5) with
            | Some _ => Ok tt (left_by (if islink then 1 else 2)%nat m line s)
            | None => Raise ValueError (left_by (if islink then 1 else 2)%nat m line s)
            end) as Hrun.
  { rewrite (add_new_file_long_runs islink _ m fs n); try done.
    - unfold left_by, with_entry. cbn [current_ret with_match set_regex_helper].
      destruct islink; cbn [written]; by rewrite (files_of_files s fs Hf).
    - simpl. apply lookup_insert_eq.
    - by apply LsInvariant.files_Some.
    - intros ->. by apply H8. }
  assert (ends_with (if islink then 1 else 2)%nat m
          = match ConverterHelper.parse_token (grp m 5) with
            | Some _ => ParsingDone
            | None => ValueError
            end) as -> by (by destruct islink).
  destruct islink; unfold _parse_long_links, _parse_long_file;
    rewrite bind_unfold, LsFacts.search_step, Hm; cbn beta iota;
    cbn [RegexHelper.truthy RegexHelper.of_match];
    rewrite bind_unfold, Hrun;
    by destruct (ConverterHelper.parse_token (grp m 5)).
Qed.

Lemma store_total_field s d k x :
  current_ret s !! "total" = Some (VDict d) ->
  store ["total"] k x s
  = Ok tt (set_current_ret (<["total" := VDict (<[k := x]> d)]> (current_ret s)) s).
Proof.
  intros Hf. unfold store, gets. rewrite bind_unfold. cbn beta iota.
  unfold setitem_at, getitem, setitem. rewrite !bind_unfold. rewrite Hf. reflexivity.
Qed.

(** The handler of the [total] line on a line in which its pattern is
    found. *)
Lemma total_handler_exact line s m :
  total_ok s -> re_search _re_total line = Some m ->
  _parse_total line s = Raise (ends_with 0 m) (left_by 0 m line s).
Proof.
  intros Ht Hm. pose proof (total_group line m Hm) as Hg.
  set (s0 := with_match (RegexHelper.PMatch m) s).
  set (old := total_of (current_ret s)).
  set (s1 := set_current_ret (<["total" := VDict old]> (current_ret s)) s0).
  assert (RegexHelper.inst_dict (_regex_helper s1) !! "match" = Some (RegexHelper.PMatch m))
    as Hm1 by apply lookup_insert_eq.
  assert ((if bool_decide (is_Some (current_ret s0 !! "total")) then mret tt
           else modify (set_current_ret (<["total" := VDict ∅]> (current_ret s0)))) s0
          = Ok tt s1) as Hif.
  { subst s1 old. unfold total_of. change (current_ret s0) with (current_ret s).
    destruct Ht as [Hn | [d Hd]].
    - rewrite Hn. rewrite bool_decide_eq_false_2 by (by intros [? ?]). reflexivity.
    - rewrite Hd. rewrite bool_decide_eq_true_2 by eauto.
      rewrite insert_id by done. by destruct s as [? [?] ? ? ?]. }
  unfold _parse_total. rewrite bind_unfold, LsFacts.search_step, Hm. cbn beta iota.
  cbn [RegexHelper.truthy RegexHelper.of_match].
  change (with_match (RegexHelper.PMatch m) s) with s0.
  rewrite bind_unfold. unfold gets at 1. cbn beta iota.
  rewrite bind_unfold, Hif. cbn beta iota.
  rewrite bind_unfold, (helper_group_at s1 m 1 Hm1 Hg). cbn beta iota.
  rewrite bind_unfold, (store_total_field s1 old) by apply lookup_insert_eq. cbn beta iota.
  rewrite bind_unfold, (helper_group_at _ m 1) by first [exact Hg | apply lookup_insert_eq].
  cbn beta iota.
  rewrite bind_unfold, to_bytes_at.
  unfold ends_with, left_by, written, total_entry. cbn [size_column]. fold old.
  destruct (ConverterHelper.parse_token (grp m 1)) as [tok |].
  - cbn beta iota. cbn [fst].
    rewrite bind_unfold, (store_total_field _ (<["raw" := VStr (grp m 1)]> old))
      by apply lookup_insert_eq.
    cbn beta iota. subst s1. cbn [current_ret set_current_ret].
    unfold set_current_ret. cbn. by rewrite !insert_insert_eq.
  - subst s1. cbn [current_ret set_current_ret].
    unfold set_current_ret. cbn. by rewrite !insert_insert_eq.
Qed.

(** The stores of the files-list handler for the names of a line. *)
Lemma store_names_exact l : forall s fs,
  current_ret s !! "files" = Some (VDict fs) ->
  forM_ (fun filename =>
           store ["files"] filename (VDict ∅);;
           store ["files"; filename] "name" (VStr filename)) l s
  = Ok tt (set_current_ret
             (<["files" := VDict (foldl (fun acc n => <[n := bare_entry n]> acc) fs l)]>
                (current_ret s)) s).
Proof.
  induction l as [| n l IH]; intros s fs Hf.
  - simpl. rewrite insert_id by done. by destruct s.
  - cbn [forM_ foldl]. unfold bind at 1.
    change (store ["files"] n (VDict ∅) ≫= _) with
      (store ["files"] n (VDict ∅);; store ["files"; n] "name" (VStr n)).
    rewrite bind_unfold, (store_new_entry s fs) by done. cbn beta iota.
    rewrite with_entry_store. cbn beta iota. unfold with_entry.
    rewrite (IH _ (<[n := bare_entry n]> fs)).
    + cbn [current_ret set_current_ret]. unfold set_current_ret. cbn.
      by rewrite insert_insert_eq.
    + cbn [current_ret set_current_ret]. rewrite lookup_insert_eq.
      unfold bare_entry. by rewrite insert_empty.
Qed.

Lemma files_list_exact line s fs m :
  files s = Some fs -> re_search _re_files_list line = Some m ->
  _parse_files_list line s = Raise (ends_with 3 m) (left_by 3 m line s).
Proof.
  intros Hf Hm. unfold _parse_files_list.
  rewrite bind_unfold, LsFacts.search_step, Hm. cbn beta iota.
  cbn [RegexHelper.truthy RegexHelper.of_match].
  rewrite bind_unfold, (store_names_exact _ _ fs) by (by apply LsInvariant.files_Some).
  cbn beta iota. unfold left_by. cbn [written current_ret with_match set_regex_helper].
  by rewrite (files_of_files s fs Hf).
Qed.

End LsExact.

(** ** The parse chain, line by line *)

Module LsChain.
Import Ls LsEffect.

Lemma before_first (line : string) (P : regex -> Prop) (i : nat) :
  (forall k r h, (k < i)%nat -> handlers !! k = Some (r, h) -> P r) ->
  forall j r' h', (j < i)%nat -> handlers !! j = Some (r', h') -> P r'.
Proof. intros H j r' h' Hj Hl. by apply (H j r' h'). Qed.

(** The [try] statement of [on_new_line], by the first handler whose
    pattern is found. *)
Lemma chain_exact line s fs :
  files s = Some fs -> total_ok s ->
  parse_chain line s
  = match first_claim line with
    | None => Ok tt (with_match RegexHelper.PNone s)
    | Some (i, m) =>
        match ends_with i m with
        | ParsingDone => Ok tt (left_by i m line s)
        | e => Raise e (left_by i m line s)
        end
    end.
Proof.
  intros Hf Ht. unfold first_claim.
  destruct (re_search _re_total line) as [m |] eqn:E0.
  { rewrite (LsFacts.parse_chain_first 0 _re_total _parse_total line s); [| done | | by eauto].
    - unfold try_except. rewrite (LsExact.total_handler_exact line s m Ht E0).
      by destruct (ends_with 0 m).
    - intros j r' h' Hj. lia. }
  destruct (re_search _re_long_links line) as [m |] eqn:E1.
  { rewrite (LsFacts.parse_chain_first 1 _re_long_links _parse_long_links line s);
      [| done | | by eauto].
    - unfold try_except. rewrite (LsExact.long_handler_exact true line s fs m Hf E1).
      by destruct (ends_with 1 m).
    - intros [| j] r' h' Hj Hl; [| lia]. by injection Hl as <- <-. }
  destruct (re_search _re_long line) as [m |] eqn:E2.
  { rewrite (LsFacts.parse_chain_first 2 _re_long _parse_long_file line s);
      [| done | | by eauto].
    - unfold try_except. rewrite (LsExact.long_handler_exact false line s fs m Hf E2).
      by destruct (ends_with 2 m).
    - intros [| [| j]] r' h' Hj Hl; [| | lia]; by injection Hl as <- <-. }
  destruct (re_search _re_files_list line) as [m |] eqn:E3.
  { rewrite (LsFacts.parse_chain_first 3 _re_files_list _parse_files_list line s);
      [| done | | by eauto].
    - unfold try_except. rewrite (LsExact.files_list_exact line s fs m Hf E3).
      reflexivity.
    - intros [| [| [| j]]] r' h' Hj Hl; [| | | lia]; by injection Hl as <- <-. }
  apply LsFacts.parse_chain_none. unfold handlers. intros r h.
  rewrite !elem_of_cons, elem_of_nil.
  intros [E | [E | [E | [E | []]]]]; by injection E as -> ->.
Qed.

(** A handler that is the first whose pattern is found. *)
Lemma first_handler_exact i r h line s fs m :
  files s = Some fs -> total_ok s ->
  handlers !! i = Some (r, h) -> re_search r line = Some m ->
  h line s = Raise (ends_with i m) (left_by i m line s).
Proof.
  intros Hf Ht Hi Hm.
  destruct i as [| [| [| [| i]]]]; simpl in Hi; try discriminate Hi; injection Hi as <- <-.
  - by apply LsExact.total_handler_exact.
  - by apply (LsExact.long_handler_exact true line s fs).
  - by apply (LsExact.long_handler_exact false line s fs).
  - by apply (LsExact.files_list_exact line s fs).
Qed.

Lemma total_ok_left_by i m line s : total_ok s -> total_ok (left_by i m line s).
Proof.
  intros Ht. unfold total_ok, left_by. cbn [current_ret set_current_ret].
  destruct i as [| [| [| i]]]; cbn [written];
    rewrite ?lookup_insert_eq, ?lookup_insert_ne by done; eauto.
Qed.

Lemma base_current_ret line full s :
  current_ret (final (base_on_new_line line full s)) = current_ret s.
Proof.
  unfold base_on_new_line, gets, modify, mbind, M_bind, bind, mret, M_ret, ret.
  by destruct (re_search _ _), (_state s).
Qed.

Lemma total_ok_on_new_line line full s fs :
  files s = Some fs -> total_ok s -> total_ok (final (on_new_line line full s)).
Proof.
  intros Hf Ht.
  assert (forall s1, total_ok s1 -> total_ok (final (base_on_new_line line full s1))) as Hb.
  { intros s1 H1. unfold total_ok. by rewrite base_current_ret. }
  rewrite LsFacts.on_new_line_unfold, bind_unfold. destruct full; [| by apply Hb].
  rewrite (chain_exact line s fs Hf Ht).
  destruct (first_claim line) as [[i m] |]; [| by apply Hb].
  pose proof (total_ok_left_by i m line s Ht) as Hl.
  destruct (ends_with i m); first [by apply Hb | done].
Qed.

Lemma reachable_total_ok s : reachable s -> total_ok s.
Proof.
  induction 1 as [prompt options | line full s Hr IH]; [by left |].
  destruct (LsInvariant.reachable_wf s Hr) as (_ & fs & Hf & _).
  by apply (total_ok_on_new_line line full s fs).
Qed.

(** The base handler on a line in which the prompt is found. *)
Lemma base_marks_done line full s :
  is_Some (re_search (_re_prompt s) line) -> _state s = Pending ->
  base_on_new_line line full s = Ok tt (set_state DoneSuccess s).
Proof.
  intros [m Hm] Hp. unfold base_on_new_line, gets, modify, mbind, M_bind, bind.
  by rewrite Hm, Hp.
Qed.

End LsChain.

(** C4.  In every call of [on_new_line]: on a line that is not full no
    predicate runs, the call is the base handler's; on a full line the
    handlers are tried in the order total, long-links, long-file,
    files-list, and the first whose pattern is found is the only one whose
    body runs: it does not return, so no later handler sees the line, and
    the call goes on exactly as if that handler had been alone in the [try].
    That handler writes into the result: on every command that a program
    can hold it leaves the result [written]: the dict under ["total"] with
    [raw] and [bytes] for the total line, the entry of the file under its
    name for a long line (with [link] for a link), an entry with its name
    for every name of a files-list line; it ends with [ParsingDone], or
    with the [ValueError] of a size that does not convert, in which case
    the fields stored before the conversion are written.  With no pattern
    found nothing is written; [ParsingDone] never reaches the caller; and
    after a handler consumed the line the call returns, so the lines that
    follow are processed. *)
Theorem on_new_line_first_match_wins (line : string) (st : Ls.t) :
  Ls.on_new_line line false st = Ls.base_on_new_line line false st
  /\ (forall i r h,
        Ls.handlers !! i = Some (r, h) ->
        (forall j r' h', (j < i)%nat -> Ls.handlers !! j = Some (r', h') ->
                         re_search r' line = None) ->
        is_Some (re_search r line) ->
        (exists e s', h line st = Raise e s')
        /\ Ls.on_new_line line true st
           = (try_except (h line) ParsingDone (mret tt);; Ls.base_on_new_line line true) st
        /\ (forall s1 rest,
              h line st = Raise ParsingDone s1 ->
              exists s2, Ls.on_new_line line true st = Ok tt s2
                         /\ Ls.base_on_new_line line true s1 = Ok tt s2
                         /\ Ls.process_lines ((line, true) :: rest) st
                            = Ls.process_lines rest s2)
        /\ (forall m,
              Ls.reachable st -> re_search r line = Some m ->
              h line st = Raise (LsEffect.ends_with i m) (LsEffect.left_by i m line st)
              /\ Ls.current_ret (LsEffect.left_by i m line st)
                 = LsEffect.written i m line (Ls.current_ret st)
              /\ (LsEffect.ends_with i m = ParsingDone
                  \/ LsEffect.ends_with i m = ValueError)))
  /\ ((forall r h, (r, h) ∈ Ls.handlers -> re_search r line = None) ->
      Ls.on_new_line line true st
      = Ls.base_on_new_line line true (Ls.with_match RegexHelper.PNone st)
      /\ Ls.current_ret (Ls.with_match RegexHelper.PNone st) = Ls.current_ret st)
  /\ (forall is_full_line s', Ls.on_new_line line is_full_line st <> Raise ParsingDone s').
Proof.
  split; [reflexivity |]. split; [| split].
  - intros i r h Hi Hbefore Hfound.
    assert (Hin : (r, h) ∈ Ls.handlers) by (eapply list_elem_of_lookup_2; eauto).
    pose proof (LsFacts.parse_chain_first i r h line st Hi Hbefore Hfound) as Hc.
    split; [by apply (LsFacts.handler_claims r h) |]. split; [| split].
    + rewrite LsFacts.on_new_line_unfold, !bind_unfold. by rewrite Hc.
    + intros s1 rest Hs1.
      destruct (LsFacts.base_returns line true s1) as [s2 Hb].
      assert (Ls.on_new_line line true st = Ok tt s2) as Ho.
      { rewrite LsFacts.on_new_line_unfold, bind_unfold, Hc.
        unfold try_except. by rewrite Hs1. }
      exists s2. split; [done |]. split; [done |].
      unfold Ls.process_lines. simpl. unfold bind. by rewrite Ho.
    + intros m Hr Hm.
      destruct (LsInvariant.reachable_wf st Hr) as (_ & fs & Hf & _).
      pose proof (LsChain.reachable_total_ok st Hr) as Ht.
      split; [by apply (LsChain.first_handler_exact i r h line st fs) |].
      split; [reflexivity |].
      unfold LsEffect.ends_with.
      destruct (LsEffect.size_column i m) as [g |]; [| by left].
      destruct (ConverterHelper.parse_token g); [by left | by right].
  - intros Hn. split; [| reflexivity].
    rewrite LsFacts.on_new_line_unfold, bind_unfold.
    by rewrite LsFacts.parse_chain_none.
  - intros full s'. rewrite LsFacts.on_new_line_unfold, bind_unfold.
    destruct full.
    + destruct (Ls.parse_chain line st) as [[] s1 | e s1] eqn:E.
      * destruct (LsFacts.base_returns line true s1) as [s2 ->]. done.
      * intros [= -> ->]. by apply LsFacts.parse_chain_no_signal in E.
    + destruct (LsFacts.base_returns line false st) as [s2 Hb].
      unfold mret, M_ret, ret. by rewrite Hb.
Qed.

Lemma on_new_line_first_match_wins_witness :
  let st := Ls.__init__ Ls.canonical_prompt None in
  let line := "drwxr-xr-x  2 root root 4096 Sep 25 2014 bin" in
  exists s', Ls._parse_long_file line st = Raise ParsingDone s'
             /\ Ls.files s' = Some {["bin" := Ls.canonical_bin]}.
Proof.
  intros st line.
  destruct (re_search Ls._re_long line) as [m |] eqn:E; [| vm_compute in E; discriminate E].
  assert (forall j r' h', (j < 2)%nat -> Ls.handlers !! j = Some (r', h') ->
                          re_search r' line = None) as Hbefore.
  { intros [| [| j]] r' h' Hj Hl; [| | lia]; injection Hl as <- <-; vm_compute; reflexivity. }
  pose proof (proj1 (proj2 (proj2 (proj2
                (proj1 (proj2 (on_new_line_first_match_wins line st)) 2%nat Ls._re_long
                   Ls._parse_long_file eq_refl Hbefore (ex_intro _ m E))))
                m (Ls.reach_init _ _) E)) as H.
  assert (Some m = re_search Ls._re_long line) as Hm by (symmetry; exact E).
  vm_compute in Hm. injection Hm as ->.
  eexists. split; [exact H |]. vm_compute. reflexivity.
Defined.

(** C5, amended.  On a full line the base handler runs after the parse
    chain when no handler claimed the line and also when the first handler
    whose pattern is found consumed the line, that is, ended in
    [ParsingDone]: the call is then the base handler's on the command that
    the handler left, so a line on which the prompt is found marks a
    pending command done, consumed or not.  The base handler does not run
    when that handler fails: with a size that does not convert the
    [ValueError] leaves [on_new_line], and the command is in the state it
    was in. *)
Theorem base_handler_runs_unless_handler_fails (line : string) (st : Ls.t) :
  Ls.reachable st ->
  match LsEffect.first_claim line with
  | None =>
      Ls.on_new_line line true st
      = Ls.base_on_new_line line true (Ls.with_match RegexHelper.PNone st)
      /\ (is_Some (re_search (Ls._re_prompt st) line) -> Ls._state st = Pending ->
          Ls.on_new_line line true st
          = Ok tt (Ls.set_state DoneSuccess (Ls.with_match RegexHelper.PNone st)))
  | Some (i, m) =>
      match LsEffect.ends_with i m with
      | ParsingDone =>
          Ls.on_new_line line true st
          = Ls.base_on_new_line line true (LsEffect.left_by i m line st)
          /\ (is_Some (re_search (Ls._re_prompt st) line) -> Ls._state st = Pending ->
              Ls.on_new_line line true st
              = Ok tt (Ls.set_state DoneSuccess (LsEffect.left_by i m line st)))
      | e =>
          Ls.on_new_line line true st = Raise e (LsEffect.left_by i m line st)
          /\ Ls._state (LsEffect.left_by i m line st) = Ls._state st
      end
  end.
Proof.
  intros Hr.
  destruct (LsInvariant.reachable_wf st Hr) as (_ & fs & Hf & _).
  pose proof (LsChain.reachable_total_ok st Hr) as Ht.
  pose proof (LsChain.chain_exact line st fs Hf Ht) as Hc.
  assert (Ls.on_new_line line true st
          = match Ls.parse_chain line st with
            | Ok _ s1 => Ls.base_on_new_line line true s1
            | Raise e s1 => Raise e s1
            end) as Ho
    by (rewrite LsFacts.on_new_line_unfold, bind_unfold; by destruct (Ls.parse_chain line st)).
  rewrite Hc in Ho.
  destruct (LsEffect.first_claim line) as [[i m] |].
  - destruct (LsEffect.ends_with i m); try (split; [exact Ho | reflexivity]).
    split; [exact Ho |]. intros Hp Hst. rewrite Ho.
    by apply LsChain.base_marks_done.
  - split; [exact Ho |]. intros Hp Hst. rewrite Ho.
    by apply LsChain.base_marks_done.
Qed.

Lemma base_handler_runs_unless_handler_fails_witness :
  let st := Ls.__init__ Ls.canonical_prompt None in
  Ls._state (Ls.final (Ls.on_new_line "host:~ #" true st)) = DoneSuccess
  /\ exists s1, Ls.on_new_line "total 8abc" true st = Raise ValueError s1
                /\ Ls._state s1 = Pending.
Proof.
  intros st. split.
  - pose proof (base_handler_runs_unless_handler_fails "host:~ #" st (Ls.reach_init _ _)) as H.
    destruct (LsEffect.first_claim "host:~ #") as [[i m] |] eqn:E;
      [| vm_compute in E; discriminate E].
    assert (Some (i, m) = LsEffect.first_claim "host:~ #") as Hm by (symmetry; exact E).
    vm_compute in Hm. injection Hm as -> ->.
    destruct H as [_ H]. rewrite H; [reflexivity | vm_compute; eauto | reflexivity].
  - pose proof (base_handler_runs_unless_handler_fails "total 8abc" st (Ls.reach_init _ _)) as H.
    destruct (LsEffect.first_claim "total 8abc") as [[i m] |] eqn:E;
      [| vm_compute in E; discriminate E].
    assert (Some (i, m) = LsEffect.first_claim "total 8abc") as Hm by (symmetry; exact E).
    vm_compute in Hm. injection Hm as -> ->.
    destruct H as [H Hst]. eexists. split; [exact H | exact Hst].
Defined.

(** X10.  On every command that a program can hold, [on_new_line] returns
    or raises [ValueError], and nothing else: no group that a handler reads
    is missing, [int()] of the links column of a long line cannot fail, and
    every store finds the dict it stores into.  It raises exactly when the
    line is full and the size column of the first handler whose pattern is
    found does not convert; the state of the command is then left as it
    was. *)
Theorem on_new_line_fails_only_on_size (line : string) (is_full_line : bool) (st : Ls.t) :
  Ls.reachable st ->
  (exists s', Ls.on_new_line line is_full_line st = Ok tt s'
              /\ (is_full_line = true ->
                  forall i m g, LsEffect.first_claim line = Some (i, m) ->
                                LsEffect.size_column i m = Some g ->
                                is_Some (ConverterHelper.parse_token g)))
  \/ (exists s' i m g,
        is_full_line = true
        /\ LsEffect.first_claim line = Some (i, m)
        /\ LsEffect.size_column i m = Some g
        /\ ConverterHelper.parse_token g = None
        /\ Ls.on_new_line line is_full_line st = Raise ValueError s'
        /\ Ls._state s' = Ls._state st).
Proof.
  intros Hr.
  destruct (LsInvariant.reachable_wf st Hr) as (_ & fs & Hf & _).
  pose proof (LsChain.reachable_total_ok st Hr) as Ht.
  rewrite LsFacts.on_new_line_unfold, bind_unfold. destruct is_full_line.
  - rewrite (LsChain.chain_exact line st fs Hf Ht).
    destruct (LsEffect.first_claim line) as [[i m] |].
    + unfold LsEffect.ends_with.
      destruct (LsEffect.size_column i m) as [g |] eqn:Eg.
      * destruct (ConverterHelper.parse_token g) as [tok |] eqn:Etok.
        -- left. destruct (LsFacts.base_returns line true (LsEffect.left_by i m line st))
             as [s' Hb].
           exists s'. split; [done |]. intros _ i' m' g' [= <- <-] Hg'.
           rewrite Eg in Hg'. injection Hg' as <-. by rewrite Etok.
        -- right. exists (LsEffect.left_by i m line st), i, m, g. done.
      * left. destruct (LsFacts.base_returns line true (LsEffect.left_by i m line st))
          as [s' Hb].
        exists s'. split; [done |]. intros _ i' m' g' [= <- <-] Hg'.
        rewrite Eg in Hg'. discriminate Hg'.
    + left. destruct (LsFacts.base_returns line true (Ls.with_match RegexHelper.PNone st))
        as [s' Hb].
      exists s'. split; [done |]. intros _ i m g Hc. discriminate Hc.
  - left. destruct (LsFacts.base_returns line false st) as [s' Hb].
    exists s'. split; [| intros H; discriminate H].
    unfold mret, M_ret, ret. exact Hb.
Qed.

Lemma on_new_line_fails_only_on_size_witness :
  let st := Ls.__init__ Ls.canonical_prompt None in
  (exists s', Ls.on_new_line "total 8" true st = Ok tt s')
  /\ (exists s', Ls.on_new_line "total 8abc" true st = Raise ValueError s').
Proof.
  intros st. split.
  - destruct (on_new_line_fails_only_on_size "total 8" true st (Ls.reach_init _ _))
      as [(s' & H & _) | (s' & i & m & g & _ & _ & _ & _ & H & _)].
    + by exists s'.
    + vm_compute in H. discriminate H.
  - destruct (on_new_line_fails_only_on_size "total 8abc" true st (Ls.reach_init _ _))
      as [(s' & H & _) | (s' & i & m & g & _ & _ & _ & _ & H & _)].
    + vm_compute in H. discriminate H.
    + by exists s'.
Defined.
